(** * Verification of the [net] socket wrapper (PaulHowes/net)

    A shallow embedding of [include/net/socket.hpp], [client.hpp],
    [server.hpp] and [socket_traits.hpp].  Every member function is a
    program over the operating-system calls it issues: the call is a node of
    the program, the value the kernel hands back selects the continuation.
    Theorems are stated for every operating system (every handler of the
    calls) and, for the line framing, for a model of connected stream
    sockets. *)

From Stdlib Require Import ZArith Ascii String DecimalString.
From stdpp Require Import gmap strings list.

Local Open Scope Z_scope.

(** ** Integers and text *)

(** [unsigned(x)]: conversion of a signed value to the 32-bit [unsigned]. *)
Definition to_unsigned (x : Z) : Z := x mod 2 ^ 32.

(** [msg << x] for an [int], and [std::to_string]: decimal digits. *)
Definition show_int (x : Z) : string := NilZero.string_of_int (Z.to_int x).

Definition CR : ascii := ascii_of_nat 13.
Definition LF : ascii := ascii_of_nat 10.

(** ** System constants (Linux values of the headers the code includes) *)

Definition MSG_PEEK : Z := 2.
Definition AI_PASSIVE : Z := 1.
Definition PF_INET : Z := 2.
Definition SOCK_STREAM : Z := 1.
Definition SOCK_DGRAM : Z := 2.
Definition IPPROTO_TCP : Z := 6.
Definition IPPROTO_UDP : Z := 17.
Definition SOL_SOCKET : Z := 1.
Definition SO_REUSEADDR : Z := 2.

(** ** Data model *)

(** [struct sockaddr]: the raw bytes of an address. *)
Definition sockaddr : Type := list ascii.

(** [struct addrinfo]; the [ai_next] chain is the list that holds the
    records. *)
Record addrinfo : Type := {
  ai_flags : Z;
  ai_family : Z;
  ai_socktype : Z;
  ai_protocol : Z;
  ai_addrlen : Z;
  ai_addr : sockaddr
}.

(** [socket_traits<flags_, family_, type_, protocol_>]. *)
Record socket_traits : Type := {
  flags : Z;
  family : Z;
  type : Z;
  protocol : Z
}.

Definition tcp_traits : socket_traits :=
  {| flags := AI_PASSIVE; family := PF_INET; type := SOCK_STREAM;
     protocol := IPPROTO_TCP |}.

Definition udp_traits : socket_traits :=
  {| flags := AI_PASSIVE; family := PF_INET; type := SOCK_DGRAM;
     protocol := IPPROTO_UDP |}.

(** [class socket]: the descriptor it manages. *)
Record socket : Type := { fd_ : Z }.

(** [class socket_impl : public socket]: the base sub-object and the head of
    the resolved address list ([nullptr] is the empty list). *)
Record socket_impl : Type := {
  base : socket;
  res0_ : list addrinfo
}.

(** Modelled from the spec: [net/error.hpp] is not among the sources; the
    single error kind carries a descriptive message. *)
Record socket_error : Type := { what : string }.

(** ** Operating-system calls *)

Inductive syscall : Type :=
| sys_recv (fd len flg : Z)
| sys_send (fd : Z) (buf : list ascii) (len flg : Z)
| sys_close (fd : Z)
| sys_getaddrinfo (node service : string) (hints : addrinfo)
| sys_socket (domain typ proto : Z)
| sys_connect (fd : Z) (addr : sockaddr) (addrlen : Z)
| sys_setsockopt (fd level optname optval optlen : Z)
| sys_bind (fd : Z) (addr : sockaddr) (addrlen : Z)
| sys_listen (fd backlog : Z).

(** What a call hands back: its return value, [errno] after it, the bytes
    it copied to the caller's buffer ([recv]) and the list it stored through
    its result pointer ([getaddrinfo]). *)
Record reply : Type := {
  ret : Z;
  errno : Z;
  r_data : list ascii;
  r_addrs : list addrinfo
}.

(** ** Programs *)

Inductive prog (A : Type) : Type :=
| Done (a : A)
| Sys (c : syscall) (k : reply -> prog A).
Arguments Done {A} a.
Arguments Sys {A} c k.

(** How a member function ends: it returns, it throws, it ends the process
    through [std::terminate] (an exception left a function that is
    [noexcept]), or it leaves the behaviour the language defines (an access
    outside an array, a null pointer dereferenced). *)
Inductive outcome (A : Type) : Type :=
| Return (a : A)
| Throw (e : socket_error)
| Terminate (e : socket_error)
| Undefined.
Arguments Return {A} a.
Arguments Throw {A} e.
Arguments Terminate {A} e.
Arguments Undefined {A}.

(** A member function over the memory [S] it may change ([*this], or the
    buffer it is handed). *)
Definition action (S A : Type) : Type := S -> prog (S * outcome A).

Fixpoint prog_bind {A B} (p : prog A) (f : A -> prog B) : prog B :=
  match p with
  | Done a => f a
  | Sys c k => Sys c (fun r => prog_bind (k r) f)
  end.

Definition pure {S A} (a : A) : action S A := fun s => Done (s, Return a).
Definition throw {S A} (e : socket_error) : action S A := fun s => Done (s, Throw e).
Definition undefined {S A} : action S A := fun s => Done (s, Undefined).
Definition call {S} (c : syscall) : action S reply :=
  fun s => Sys c (fun r => Done (s, Return r)).
Definition get {S} : action S S := fun s => Done (s, Return s).
Definition put {S} (s : S) : action S unit := fun _ => Done (s, Return tt).

Definition bind {S A B} (m : action S A) (f : A -> action S B) : action S B :=
  fun s => prog_bind (m s) (fun '(s', o) =>
    match o with
    | Return a => f a s'
    | Throw e => Done (s', Throw e)
    | Terminate e => Done (s', Terminate e)
    | Undefined => Done (s', Undefined)
    end).

(** A function that is [noexcept]: an exception that would leave it ends the
    process instead. *)
Definition noexcept_ {S A} (m : action S A) : action S A :=
  fun s => prog_bind (m s) (fun '(s', o) =>
    Done (s', match o with
              | Throw e => Terminate e
              | _ => o
              end)).

Notation "'let*' x ':=' m 'in' k" := (bind m (fun x => k))
  (at level 10, x pattern, m at level 100, k at level 200).
Notation "m ';;' k" := (bind m (fun _ => k))
  (at level 100, k at level 200, right associativity).

(** Runs a program on an operating system [os] with state [w]: the result,
    the final state and the calls issued, in order. *)
Fixpoint run {W A} (os : syscall -> W -> reply * W) (p : prog A) (w : W)
  : A * W * list syscall :=
  match p with
  | Done a => (a, w, [])
  | Sys c k =>
      let '(r, w1) := os c w in
      let '(a, w2, t) := run os (k r) w1 in
      (a, w2, c :: t)
  end.

(** ** [socket.hpp]: class [socket] *)

Module socket_.

(** [socket()], [socket(int fd)], [socket(const socket&)]. *)
Definition ctor : socket := {| fd_ := 0 |}.
Definition ctor_fd (fd : Z) : socket := {| fd_ := fd |}.
Definition ctor_copy (s : socket) : socket := {| fd_ := fd_ s |}.

(** [~socket()]. The destructor is declared without an exception
    specification and the class has no base and only an [int] member, so it
    is [noexcept]: its [throw] ends the process. *)
Definition dtor (this : socket) : action unit unit :=
  noexcept_
    (if 0 <? fd_ this then
       let* r := call (sys_close (fd_ this)) in
       if ret r <? 0 then
         throw {| what := "Error closing socket: " +:+ show_int (errno r) |}
       else pure tt
     else pure tt).

(** The bytes [recv] copied overwrite the front of the buffer. *)
Definition store (buffer data : list ascii) : list ascii :=
  data ++ drop (length data) buffer.

(** [read(buffer, length, peek)]; the state is the memory at [buffer]. *)
Definition read (this : socket) (length : Z) (peek : bool)
  : action (list ascii) Z :=
  let* r := call (sys_recv (fd_ this) length (if peek then MSG_PEEK else 0)) in
  let read_length := ret r in
  if read_length <? 0 then
    throw {| what := "Error reading from connected host: " +:+ show_int (errno r) |}
  else
    let* buffer := get in
    put (store buffer (r_data r));;
    pure (to_unsigned read_length).

Definition is_eol (c : ascii) : bool :=
  bool_decide (c = CR) || bool_decide (c = LF).

(** The [while] loop of [read_line]; [window] is what lies between [p] and
    [buffer + read_length]. *)
Fixpoint scan_eol (window : list ascii) (p found_eol : Z) : Z * Z :=
  match window with
  | [] => (p, found_eol)
  | c :: window' =>
      if found_eol <? 2 then
        scan_eol window' (p + 1) (if is_eol c then found_eol + 1 else found_eol)
      else (p, found_eol)
  end.

Definition BUFFER_SIZE : Z := 4096.

(** [read_line()]; the state is the function's [static char buffer[]]. *)
Definition read_line (this : socket) : action (list ascii) (list ascii) :=
  let* read_length := read this BUFFER_SIZE true in
  if 0 <? read_length then
    let* buffer := get in
    let '(p, found_eol) := scan_eol (take (Z.to_nat read_length) buffer) 0 0 in
    (* the loop would go on, past the end of the array *)
    if (p <? read_length) && (found_eol <? 2) then undefined
    else if found_eol <? 2 then
      throw {| what := "Line not found: " +:+ show_int found_eol |}
    else
      let* read_length := read this p false in
      let* buffer := get in
      let n := to_unsigned (read_length - 2) in
      (* std::string(buffer, n) copies n bytes of the array *)
      if BUFFER_SIZE <? n then undefined
      else pure (take (Z.to_nat n) buffer)
  else pure [].

(** [write(buffer, length)]. *)
Definition write {S} (this : socket) (buffer : list ascii) (length : Z)
  : action S Z :=
  if fd_ this =? 0 then throw {| what := "Not connected" |}
  else
    let* r := call (sys_send (fd_ this) buffer length 0) in
    let write_length := ret r in
    if write_length <? 0 then
      throw {| what := "Error writing to connected host: " +:+ show_int (errno r) |}
    else pure (to_unsigned write_length).

(** [write_line(line)]. *)
Definition write_line {S} (this : socket) (line : list ascii) : action S Z :=
  let buffer := line ++ [CR; LF] in
  write this buffer (Z.of_nat (length buffer)).

End socket_.

(** ** [socket.hpp]: class template [socket_impl<T, traits>] *)

(** The derived type [T] of [socket_impl<T, traits>]: the trait bundle it was
    instantiated with and the [do_connect] that [connect] reaches through
    [static_cast<T*>(this)]. *)
Class derived : Type := {
  traits : socket_traits;
  do_connect : action socket_impl unit
}.

Definition set_fd (this : socket_impl) (fd : Z) : socket_impl :=
  {| base := {| fd_ := fd |}; res0_ := res0_ this |}.

Definition set_res0 (this : socket_impl) (res : list addrinfo) : socket_impl :=
  {| base := base this; res0_ := res |}.

Module socket_impl_.

(** [socket_impl()]. *)
Definition ctor : socket_impl := {| base := socket_.ctor; res0_ := [] |}.

Section connect.
(** [gai_strerror] of the C library: the text of a resolver error code. *)
Variable gai_strerror : Z -> string.
Context {T : derived}.

(** [connect(name, port)].  [getaddrinfo] stores the list through
    [&res0_] when it succeeds and leaves [res0_] as it was when it fails. *)
Definition connect (name : string) (port : Z) : action socket_impl unit :=
  let* this := get in
  if 0 <? fd_ (base this) then throw {| what := "Socket already exists." |}
  else
    let hints :=
      {| ai_flags := flags traits; ai_family := family traits;
         ai_socktype := type traits; ai_protocol := protocol traits;
         ai_addrlen := 0; ai_addr := [] |} in
    let* r := call (sys_getaddrinfo name (show_int port) hints) in
    let err := ret r in
    if negb (err =? 0) then
      throw {| what := "Could not resolve address: (" +:+ show_int err
                         +:+ ") " +:+ gai_strerror err |}
    else
      put (set_res0 this (r_addrs r));;
      let* this := get in
      match res0_ this with
      | [] => undefined
      | res0 :: _ =>
          let* r := call (sys_socket (ai_family res0) (ai_socktype res0)
                                     (ai_protocol res0)) in
          put (set_fd this (ret r));;
          let* this := get in
          if fd_ (base this) <? 0 then
            throw {| what := "Could not create socket: " +:+ show_int (errno r) |}
          else do_connect
      end.
End connect.

End socket_impl_.

(** ** [client.hpp] *)

Module client_.

(** [client<traits>::do_connect()]. *)
Definition do_connect : action socket_impl unit :=
  let* this := get in
  match res0_ this with
  | [] => undefined
  | res0 :: _ =>
      let* r := call (sys_connect (fd_ (base this)) (ai_addr res0) (ai_addrlen res0)) in
      if ret r <? 0 then
        throw {| what := "Connection failed: " +:+ show_int (errno r) |}
      else pure tt
  end.

End client_.

Definition client (tr : socket_traits) : derived :=
  {| traits := tr; do_connect := client_.do_connect |}.
Definition tcp_client : derived := client tcp_traits.
Definition udp_client : derived := client udp_traits.

(** ** [server.hpp] *)

Module server_.

(** [server::do_connect()]; [reuse] is the [int] 1, four bytes wide. *)
Definition do_connect : action socket_impl unit :=
  let* this := get in
  let reuse := 1 in
  let* r := call (sys_setsockopt (fd_ (base this)) SOL_SOCKET SO_REUSEADDR reuse 4) in
  if ret r <? 0 then
    throw {| what := "Could not configure socket: " +:+ show_int (errno r) |}
  else
    match res0_ this with
    | [] => undefined
    | res0 :: _ =>
        let* r := call (sys_bind (fd_ (base this)) (ai_addr res0) (ai_addrlen res0)) in
        if ret r <? 0 then
          throw {| what := "Could not bind to socket: " +:+ show_int (errno r) |}
        else
          let* r := call (sys_listen (fd_ (base this)) 10000) in
          if ret r <? 0 then
            throw {| what := "Could not listen for incoming connections: "
                               +:+ show_int (errno r) |}
          else pure tt
    end.

End server_.

(** The server of the test programs, [tcp_server]: the header derives
    [server] from [socket_impl] with the trait bundle left out; the bundle is
    a parameter here. *)
Definition server (tr : socket_traits) : derived :=
  {| traits := tr; do_connect := server_.do_connect |}.
Definition tcp_server : derived := server tcp_traits.

(** ** Reading the result of a run *)

Definition result_of {S A W} (x : S * outcome A * W * list syscall) : outcome A := x.1.1.2.
Definition memory_of {S A W} (x : S * outcome A * W * list syscall) : S := x.1.1.1.
Definition world_of {S A W} (x : S * outcome A * W * list syscall) : W := x.1.2.
Definition trace_of {S A W} (x : S * outcome A * W * list syscall) : list syscall := x.2.

(** [contains sub s]: [sub] occurs in [s]. *)
Fixpoint contains (sub s : string) : bool :=
  String.prefix sub s ||
  match s with
  | EmptyString => false
  | String _ s' => contains sub s'
  end.

(** Number of end-of-line marker bytes in a window. *)
Fixpoint count_eol (window : list ascii) : Z :=
  match window with
  | [] => 0
  | c :: window' => (if socket_.is_eol c then 1 else 0) + count_eol window'
  end.

(** ** Two operating systems *)

(** A scripted system: the replies are handed out in order, whatever the
    call; once the script is used up every call fails with [EIO]. *)
Definition failure (e : Z) : reply :=
  {| ret := -1; errno := e; r_data := []; r_addrs := [] |}.

Definition success (n : Z) : reply :=
  {| ret := n; errno := 0; r_data := []; r_addrs := [] |}.

Definition scripted (c : syscall) (script : list reply) : reply * list reply :=
  match script with
  | [] => (failure 5, [])
  | r :: script' => (r, script')
  end.

(** Connected stream sockets: [rx] holds, for each open descriptor, the
    bytes that arrived and were not read yet; [peer] names the descriptor at
    the other end of a connection; one [send] takes at most [room] bytes.
    [recv] hands over the front of the queue, up to the length asked for, and
    removes it unless [MSG_PEEK] is set; [send] appends to the peer's queue.
    The calls that set a socket up are outside this model ([ENOSYS]). *)
Record world : Type := {
  rx : gmap Z (list ascii);
  peer : gmap Z Z;
  room : Z
}.

Definition EBADF : Z := 9.
Definition ENOTCONN : Z := 107.
Definition ENOSYS : Z := 38.

Definition stream_os (c : syscall) (w : world) : reply * world :=
  match c with
  | sys_recv fd len flg =>
      match rx w !! fd with
      | None => (failure EBADF, w)
      | Some q =>
          let data := take (Z.to_nat len) q in
          ({| ret := Z.of_nat (length data); errno := 0; r_data := data; r_addrs := [] |},
           if Z.land flg MSG_PEEK =? 0
           then {| rx := <[fd := drop (Z.to_nat len) q]> (rx w); peer := peer w;
                   room := room w |}
           else w)
      end
  | sys_send fd buf len _ =>
      match peer w !! fd with
      | None => (failure (if bool_decide (is_Some (rx w !! fd)) then ENOTCONN else EBADF), w)
      | Some p =>
          let sent := take (Z.to_nat (Z.min len (room w))) buf in
          (success (Z.of_nat (length sent)),
           {| rx := <[p := default [] (rx w !! p) ++ sent]> (rx w); peer := peer w;
              room := room w |})
      end
  | _ => (failure ENOSYS, w)
  end.

(** ** Live handles *)

(** What a program does with [socket] objects: default construction,
    construction around a descriptor, copy construction from the [i]-th live
    handle, destruction of the [i]-th live handle. *)
Inductive handle_op : Type :=
| op_construct
| op_wrap (fd : Z)
| op_copy (i : nat)
| op_destroy (i : nat).

Definition apply_op (live : list socket) (op : handle_op) : list socket :=
  match op with
  | op_construct => live ++ [socket_.ctor]
  | op_wrap fd => live ++ [socket_.ctor_fd fd]
  | op_copy i =>
      match live !! i with
      | Some s => live ++ [socket_.ctor_copy s]
      | None => live
      end
  | op_destroy i => delete i live
  end.

Definition apply_ops (live : list socket) (ops : list handle_op) : list socket :=
  foldl apply_op live ops.

(** The live handles that hold descriptor [fd]. *)
Definition holders (fd : Z) (live : list socket) : list socket :=
  filter (λ s, fd_ s = fd) live.

(** No valid descriptor has two holders. *)
Definition single_owner (live : list socket) : Prop :=
  ∀ fd, 0 < fd → (length (holders fd live) ≤ 1)%nat.

(** An operation that hands no valid descriptor to a second handle: it is
    not the copy of a handle that holds a valid descriptor, and it wraps no
    valid descriptor that a live handle holds. *)
Definition exclusive_op (live : list socket) (op : handle_op) : Prop :=
  match op with
  | op_construct | op_destroy _ => True
  | op_wrap fd => 0 < fd → holders fd live = []
  | op_copy i =>
      match live !! i with
      | Some s => fd_ s ≤ 0
      | None => True
      end
  end.

Fixpoint exclusive_ops (live : list socket) (ops : list handle_op) : Prop :=
  match ops with
  | [] => True
  | op :: ops' => exclusive_op live op ∧ exclusive_ops (apply_op live op) ops'
  end.

(** ** The calls of [connect] *)

(** The resolution call of [connect]: the hints are a zeroed [addrinfo]
    with the four constants of the trait bundle. *)
Definition resolve_call (tr : socket_traits) (name : string) (port : Z) : syscall :=
  sys_getaddrinfo name (show_int port)
    {| ai_flags := flags tr; ai_family := family tr; ai_socktype := type tr;
       ai_protocol := protocol tr; ai_addrlen := 0; ai_addr := [] |}.

(** The descriptor-creation call for a candidate address. *)
Definition create_call (res0 : addrinfo) : syscall :=
  sys_socket (ai_family res0) (ai_socktype res0) (ai_protocol res0).

(** The three calls of the server's finishing step. *)
Definition server_calls (fd : Z) (res0 : addrinfo) : list syscall :=
  [ sys_setsockopt fd SOL_SOCKET SO_REUSEADDR 1 4;
    sys_bind fd (ai_addr res0) (ai_addrlen res0);
    sys_listen fd 10000 ].

(** The derived type is one of the two the library has. *)
Definition client_or_server (T : derived) : Prop :=
  T = client traits ∨ T = server traits.

(** ** Stream sockets that can be closed *)

(** The stream sockets above with [close]: an open descriptor leaves the
    tables and the call returns 0; a descriptor that is not open makes it
    fail with [EBADF]. *)
Definition closing_os (c : syscall) (w : world) : reply * world :=
  match c with
  | sys_close fd =>
      match rx w !! fd with
      | Some _ =>
          (success 0,
           {| rx := delete fd (rx w); peer := delete fd (peer w); room := room w |})
      | None => (failure EBADF, w)
      end
  | _ => stream_os c w
  end.

(** ** Inputs of the tests *)

(** The bytes of a string literal. *)
Definition bytes (s : string) : list ascii := list_ascii_of_string s.

(** The static buffer of [read_line] before its first use: 4096 zero
    bytes. *)
Definition zero_buffer : list ascii := replicate 4096 zero.

(** Part of the table behind [gai_strerror] in the GNU C library. *)
Definition gai_strerror_gnu (err : Z) : string :=
  if err =? -2 then "Name or service not known"
  else if err =? -3 then "Temporary failure in name resolution"
  else "Unknown error".

(** Two candidates for "localhost", port 1234, as a resolver may list
    them. *)
Definition candidate_a : addrinfo :=
  {| ai_flags := 0; ai_family := PF_INET; ai_socktype := SOCK_STREAM;
     ai_protocol := IPPROTO_TCP; ai_addrlen := 16;
     ai_addr := [ascii_of_nat 2; ascii_of_nat 0; ascii_of_nat 4; ascii_of_nat 210;
                 ascii_of_nat 127; ascii_of_nat 0; ascii_of_nat 0; ascii_of_nat 1] |}.

Definition candidate_b : addrinfo :=
  {| ai_flags := 0; ai_family := PF_INET; ai_socktype := SOCK_STREAM;
     ai_protocol := IPPROTO_TCP; ai_addrlen := 16;
     ai_addr := [ascii_of_nat 2; ascii_of_nat 0; ascii_of_nat 4; ascii_of_nat 210;
                 ascii_of_nat 10; ascii_of_nat 0; ascii_of_nat 0; ascii_of_nat 7] |}.

Definition resolved (l : list addrinfo) : reply :=
  {| ret := 0; errno := 0; r_data := []; r_addrs := l |}.

(** Descriptors 3 and 4 are the two ends of a connection; nothing is
    queued. *)
Definition connected_pair : world :=
  {| rx := {[ 3 := []; 4 := [] ]}; peer := {[ 3 := 4; 4 := 3 ]}; room := 65536 |}.

(** * Tests on concrete inputs *)

Example show_int_examples :
  show_int 0 = "0"%string ∧ show_int 9 = "9"%string ∧ show_int (-1) = "-1"%string
  ∧ show_int 8080 = "8080"%string.
Proof. repeat split. Qed.

Example scan_eol_crlf :
  socket_.scan_eol (bytes "foobar" ++ [CR; LF] ++ bytes "next") 0 0 = (8, 2).
Proof. reflexivity. Qed.

Example scan_eol_one_marker : socket_.scan_eol (bytes "foo" ++ [LF] ++ bytes "bar") 0 0 = (7, 1).
Proof. reflexivity. Qed.

(** * Theorems *)

(** ** Running programs *)

Lemma run_bind_pure {W S A B} (os : syscall → W → reply * W) (w : W)
    (a : A) (f : A → action S B) (s : S) :
  run os (bind (pure a) f s) w = run os (f a s) w.
Proof. reflexivity. Qed.

Lemma run_call {W S B} (os : syscall → W → reply * W) (w : W)
    (c : syscall) (f : reply → action S B) (s : S) :
  run os (bind (call c) f s) w =
  ((run os (f (os c w).1 s) (os c w).2).1,
   c :: (run os (f (os c w).1 s) (os c w).2).2).
Proof.
  unfold bind, call. simpl. destruct (os c w) as [r w1]. simpl.
  destruct (run os (f r s) w1) as [[a w2] t]. reflexivity.
Qed.

(** Unfolds one member function and runs it as far as the replies of the
    operating system are known. *)
Ltac run_os :=
  repeat first
    [ rewrite run_call
    | progress cbn [run bind prog_bind pure throw undefined get put
                    result_of memory_of world_of trace_of fst snd] ].

(** ** [socket::read] *)

(** C8. [read] raises a socket error exactly when [recv] returned a negative
    value; a [recv] that returned 0 makes [read] return 0, never an error. In
    both cases [recv] is the one call issued. *)
Theorem read_raises_iff_recv_negative {W} (os : syscall → W → reply * W)
    (w : W) (this : socket) (length : Z) (peek : bool) (buffer : list ascii) :
  let c := sys_recv (fd_ this) length (if peek then MSG_PEEK else 0) in
  let r := (os c w).1 in
  let x := run os (socket_.read this length peek buffer) w in
  trace_of x = [c] ∧
  ((∃ e, result_of x = Throw e) ↔ ret r < 0) ∧
  (ret r = 0 → result_of x = Return 0).
Proof.
  intros c r x. subst x. unfold socket_.read. rewrite run_call. fold c r.
  destruct (ret r <? 0) eqn:E; run_os.
  - apply Z.ltb_lt in E. split; [done |]. split; [split; eauto | lia].
  - apply Z.ltb_ge in E. split; [done |]. split; [split |].
    + intros [e He]. discriminate He.
    + lia.
    + intros ->. reflexivity.
Qed.

(** ** [socket::write] *)

(** [write] on a handle whose stored descriptor is not 0: one [send]; its
    count comes back through [unsigned]. *)
Lemma write_run {W S} (os : syscall → W → reply * W) (w : W)
    (this : socket) (buffer : list ascii) (length : Z) (s : S) :
  fd_ this ≠ 0 →
  let c := sys_send (fd_ this) buffer length 0 in
  let r := (os c w).1 in
  run os (socket_.write this buffer length s) w =
  (s,
   if ret r <? 0
   then Throw {| what := "Error writing to connected host: " +:+ show_int (errno r) |}
   else Return (to_unsigned (ret r)),
   (os c w).2, [c]).
Proof.
  intros Hfd c r. unfold socket_.write.
  destruct (fd_ this =? 0) eqn:E; [apply Z.eqb_eq in E; done |].
  rewrite run_call. fold c r. by destruct (ret r <? 0).
Qed.

(** C7, as the code has it. [write] raises "Not connected" when the stored
    descriptor is 0 and then issues no call; with any other stored
    descriptor, negative ones included, it issues exactly one [send], raises
    the error that embeds [errno] when [send] returned a negative value, and
    otherwise returns the count [send] returned, whatever its relation to
    [length]. *)
Theorem write_outcomes {W S} (os : syscall → W → reply * W) (w : W)
    (this : socket) (buffer : list ascii) (length : Z) (s : S) :
  let c := sys_send (fd_ this) buffer length 0 in
  let r := (os c w).1 in
  let x := run os (socket_.write this buffer length s) w in
  (fd_ this = 0 →
     result_of x = Throw {| what := "Not connected" |} ∧ trace_of x = []) ∧
  (fd_ this ≠ 0 →
     trace_of x = [c] ∧
     (ret r < 0 →
        result_of x = Throw {| what := "Error writing to connected host: "
                                         +:+ show_int (errno r) |}) ∧
     (0 ≤ ret r < 2 ^ 32 → result_of x = Return (ret r))).
Proof.
  intros c r x. subst x. unfold socket_.write. split.
  - intros ->. done.
  - intros Hfd. fold (socket_.write this buffer length s).
    rewrite (write_run os w this buffer length s Hfd). fold c r.
    cbn [trace_of result_of fst snd]. split; [done |]. split.
    + intros Hr. apply Z.ltb_lt in Hr. by rewrite Hr.
    + intros [H0 H1]. destruct (ret r <? 0) eqn:E'; [apply Z.ltb_lt in E'; lia |].
      unfold to_unsigned. by rewrite Z.mod_small.
Qed.

(** A handle whose stored descriptor is negative has no valid descriptor, and
    [write] on it does not raise "Not connected": it calls [send]. *)
Lemma write_negative_descriptor_calls_send :
  ¬ (∀ (this : socket) (buffer : list ascii) (length : Z) (script : list reply),
       ¬ 0 < fd_ this →
       result_of (run scripted (socket_.write this buffer length tt) script)
       = Throw {| what := "Not connected" |}).
Proof.
  intros H.
  assert (Hfd : ¬ 0 < fd_ {| fd_ := -1 |}) by (simpl; lia).
  specialize (H {| fd_ := -1 |} (bytes "x") 1 [failure EBADF] Hfd).
  vm_compute in H. discriminate H.
Qed.

(** [send] may take fewer bytes than it was offered; [write] returns that
    count and does not call [send] again. *)
Example write_short_count :
  let w := {| rx := {[ 4 := [] ]}; peer := {[ 3 := 4 ]}; room := 2 |} in
  let x := run stream_os (socket_.write {| fd_ := 3 |} (bytes "foobar") 6 tt) w in
  result_of x = Return 2 ∧ trace_of x = [sys_send 3 (bytes "foobar") 6 0]
  ∧ rx (world_of x) !! 4 = Some (bytes "fo").
Proof. vm_compute. done. Qed.

(** ** [socket::read_line] *)

(** The loop moves [p] forward by one byte at a time, never past the window,
    and counts at most one marker per byte. *)
Lemma scan_eol_bounds (window : list ascii) (p0 f0 p f : Z) :
  socket_.scan_eol window p0 f0 = (p, f) →
  p0 ≤ p ≤ p0 + Z.of_nat (length window) ∧ f0 ≤ f ∧ f - f0 ≤ p - p0.
Proof.
  revert p0 f0. induction window as [| c window IH]; intros p0 f0 H; cbn in H.
  - injection H as <- <-. cbn. lia.
  - destruct (f0 <? 2).
    + apply IH in H. cbn [length]. destruct (socket_.is_eol c); lia.
    + injection H as <- <-. cbn [length]. lia.
Qed.

(** The count the loop ends with: the markers of the window, capped at 2. *)
Lemma scan_eol_found (window : list ascii) (p0 f0 : Z) :
  f0 ≤ 2 →
  (socket_.scan_eol window p0 f0).2 = Z.min 2 (f0 + count_eol window).
Proof.
  revert p0 f0. induction window as [| c window IH]; intros p0 f0 Hf; cbn.
  - lia.
  - assert (0 ≤ count_eol window).
    { clear. induction window as [| c' w IH]; cbn; [lia |].
      destruct (socket_.is_eol c'); lia. }
    destruct (Z.ltb_spec f0 2).
    + rewrite IH by (destruct (socket_.is_eol c); lia).
      destruct (socket_.is_eol c); lia.
    + cbn. destruct (socket_.is_eol c); lia.
Qed.

(** With fewer than two markers found the loop has walked the whole
    window. *)
Lemma scan_eol_exhausts (window : list ascii) (p0 f0 : Z) :
  (socket_.scan_eol window p0 f0).2 < 2 →
  (socket_.scan_eol window p0 f0).1 = p0 + Z.of_nat (length window).
Proof.
  revert p0 f0. induction window as [| c window IH]; intros p0 f0 Hf; cbn in *.
  - lia.
  - destruct (Z.ltb_spec f0 2).
    + rewrite IH by done. lia.
    + cbn in Hf. lia.
Qed.

(** A line without markers followed by two marker bytes: the loop stops
    right behind the second one. *)
Lemma scan_eol_line (line rest : list ascii) (m1 m2 : ascii) (p0 : Z) :
  Forall (λ c, socket_.is_eol c = false) line →
  socket_.is_eol m1 = true → socket_.is_eol m2 = true →
  socket_.scan_eol (line ++ m1 :: m2 :: rest) p0 0
  = (p0 + Z.of_nat (length line) + 2, 2).
Proof.
  intros Hline H1 H2. revert p0.
  induction Hline as [| c line Hc _ IH]; intros p0; cbn.
  - rewrite H1, H2. cbn. destruct rest; cbn; f_equal; lia.
  - rewrite Hc, IH. f_equal. lia.
Qed.

(** [read_line], run on any operating system. *)
Lemma read_line_run {W} (os : syscall → W → reply * W) (w : W)
    (this : socket) (buffer : list ascii) :
  let c1 := sys_recv (fd_ this) socket_.BUFFER_SIZE MSG_PEEK in
  let r1 := (os c1 w).1 in
  let w1 := (os c1 w).2 in
  let buffer1 := socket_.store buffer (r_data r1) in
  let read_length := to_unsigned (ret r1) in
  let pf := socket_.scan_eol (take (Z.to_nat read_length) buffer1) 0 0 in
  let c2 := sys_recv (fd_ this) pf.1 0 in
  let r2 := (os c2 w1).1 in
  let w2 := (os c2 w1).2 in
  let buffer2 := socket_.store buffer1 (r_data r2) in
  let n := to_unsigned (to_unsigned (ret r2) - 2) in
  run os (socket_.read_line this buffer) w =
  if ret r1 <? 0 then
    (buffer,
     Throw {| what := "Error reading from connected host: " +:+ show_int (errno r1) |},
     w1, [c1])
  else if 0 <? read_length then
    if (pf.1 <? read_length) && (pf.2 <? 2) then (buffer1, Undefined, w1, [c1])
    else if pf.2 <? 2 then
      (buffer1, Throw {| what := "Line not found: " +:+ show_int pf.2 |}, w1, [c1])
    else if ret r2 <? 0 then
      (buffer1,
       Throw {| what := "Error reading from connected host: " +:+ show_int (errno r2) |},
       w2, [c1; c2])
    else if socket_.BUFFER_SIZE <? n then (buffer2, Undefined, w2, [c1; c2])
    else (buffer2, Return (take (Z.to_nat n) buffer2), w2, [c1; c2])
  else (buffer1, Return [], w1, [c1]).
Proof.
  intros c1 r1 w1 buffer1 read_length pf c2 r2 w2 buffer2 n.
  unfold socket_.read_line, socket_.read.
  unfold bind at 1. unfold bind at 1. cbn [prog_bind call run].
  destruct (os (sys_recv (fd_ this) socket_.BUFFER_SIZE MSG_PEEK) w)
    as [r1' w1'] eqn:E1.
  assert (r1 = r1') as <- by (subst r1 c1; by rewrite E1).
  assert (w1 = w1') as <- by (subst w1 c1; by rewrite E1).
  destruct (ret r1 <? 0); [reflexivity |].
  run_os. fold buffer1 read_length.
  destruct (0 <? read_length); [| reflexivity].
  run_os. fold pf. destruct pf as [p f] eqn:Epf. cbn [fst snd] in *.
  destruct ((p <? read_length) && (f <? 2)); [reflexivity |].
  destruct (f <? 2); [reflexivity |].
  unfold bind at 1. unfold bind at 1. cbn [prog_bind call run].
  destruct (os (sys_recv (fd_ this) p 0) w1) as [r2' w2'] eqn:E2.
  assert (r2 = r2') as <- by (subst r2 c2; by rewrite E2).
  assert (w2 = w2') as <- by (subst w2 c2; by rewrite E2).
  destruct (ret r2 <? 0); [reflexivity |].
  run_os. fold buffer2 n.
  by destruct (socket_.BUFFER_SIZE <? n).
Qed.

(** *** Error messages *)

Lemma contains_first_char (c : ascii) (sub s : string) :
  contains (String c sub) s = true → In c (list_ascii_of_string s).
Proof.
  induction s as [| b s IH]; cbn; [done |].
  destruct (Ascii.ascii_dec c b) as [-> | _]; [auto |].
  cbn. auto.
Qed.

Lemma In_list_ascii_append (c : ascii) (s1 s2 : string) :
  In c (list_ascii_of_string (s1 +:+ s2)) →
  In c (list_ascii_of_string s1) ∨ In c (list_ascii_of_string s2).
Proof. induction s1 as [| b s1 IH]; cbn; [auto | intros [H | H]; tauto]. Qed.

(** A number in decimal has no letter in it. *)
Lemma show_int_no_letter (x : Z) : ¬ In "L"%char (list_ascii_of_string (show_int x)).
Proof.
  assert (Hu : ∀ d, ¬ In "L"%char (list_ascii_of_string (NilEmpty.string_of_uint d))).
  { induction d; cbn; intros H; try (destruct H as [H | H]; [discriminate | auto]); done. }
  assert (Hz : ∀ d, ¬ In "L"%char (list_ascii_of_string (NilZero.string_of_uint d))).
  { intros []; cbn; try apply (Hu (_ : Decimal.uint)); cbn;
      intros H; try (destruct H as [H | H]; [discriminate | by apply Hu in H]).
    destruct H as [H | H]; [discriminate | done]. }
  unfold show_int, NilZero.string_of_int. destruct (Z.to_int x); cbn.
  - apply Hz.
  - intros [H | H]; [discriminate | by apply Hz in H].
Qed.

(** The message of a failed [recv] is not the message of a missing line. *)
Lemma read_error_is_not_line_error (e : Z) :
  contains "Line not found"
    ("Error reading from connected host: " +:+ show_int e) = false.
Proof.
  destruct (contains _ _) eqn:E; [| done].
  apply contains_first_char, In_list_ascii_append in E. destruct E as [E | E].
  - cbn in E. repeat (destruct E as [E | E]; [discriminate |]). done.
  - by apply show_int_no_letter in E.
Qed.

(** *** Stream sockets *)

Lemma stream_recv (w : world) (fd len flg : Z) (q : list ascii) :
  rx w !! fd = Some q →
  stream_os (sys_recv fd len flg) w =
  ({| ret := Z.of_nat (length (take (Z.to_nat len) q)); errno := 0;
      r_data := take (Z.to_nat len) q; r_addrs := [] |},
   if Z.land flg MSG_PEEK =? 0
   then {| rx := <[fd := drop (Z.to_nat len) q]> (rx w); peer := peer w;
           room := room w |}
   else w).
Proof. intros H. cbn. by rewrite H. Qed.

(** A peek leaves the queues as they are. *)
Lemma stream_peek_keeps_world (w : world) (fd len : Z) :
  (stream_os (sys_recv fd len MSG_PEEK) w).2 = w.
Proof. cbn. by destruct (rx w !! fd). Qed.

(** What the buffer holds right after [recv] copied [data] to it. *)
Lemma take_store (buffer data : list ascii) :
  take (length data) (socket_.store buffer data) = data.
Proof. unfold socket_.store. apply take_app_length. Qed.

(** C3. [read_line] returns the empty string when the peek yields no byte.
    It raises the error whose message contains "Line not found" exactly when
    the peek yields at least one byte and the peeked window holds fewer than
    two marker bytes; the peek is then the only call it has issued, so
    nothing was taken from the socket (a peek leaves the queues of a stream
    socket as they are). The peek is assumed to answer as [recv] does: at
    most the 4096 bytes asked for, and as many bytes copied as it counts. *)
Theorem read_line_no_line {W} (os : syscall → W → reply * W) (w : W)
    (this : socket) (buffer : list ascii) :
  let c1 := sys_recv (fd_ this) 4096 MSG_PEEK in
  let r1 := (os c1 w).1 in
  let w1 := (os c1 w).2 in
  let x := run os (socket_.read_line this buffer) w in
  ret r1 ≤ 4096 →
  (0 ≤ ret r1 → Z.of_nat (length (r_data r1)) = ret r1) →
  (ret r1 = 0 → result_of x = Return [] ∧ trace_of x = [c1]) ∧
  ((∃ e, result_of x = Throw e ∧ contains "Line not found" (what e) = true)
   ↔ 1 ≤ ret r1 ∧ count_eol (r_data r1) < 2) ∧
  (1 ≤ ret r1 → count_eol (r_data r1) < 2 →
     result_of x = Throw {| what := "Line not found: "
                                      +:+ show_int (count_eol (r_data r1)) |}
     ∧ trace_of x = [c1] ∧ world_of x = w1) ∧
  (∀ (sw : world) fd len, (stream_os (sys_recv fd len MSG_PEEK) sw).2 = sw).
Proof.
  intros c1 r1 w1 x Hmax Hlen.
  pose proof (read_line_run os w this buffer) as Hrun. cbv zeta in Hrun.
  change socket_.BUFFER_SIZE with 4096 in Hrun. fold c1 r1 w1 x in Hrun.
  split; [| split; [| split; [| apply stream_peek_keeps_world]]].
  - intros H0. rewrite Hrun, H0. done.
  - destruct (Z.ltb_spec (ret r1) 0) as [Hneg | Hpos].
    { rewrite Hrun. split; [| lia]. intros (e & [= <-] & He). cbn [what] in He.
      by rewrite read_error_is_not_line_error in He. }
    specialize (Hlen Hpos).
    assert (Hu : to_unsigned (ret r1) = ret r1)
      by (unfold to_unsigned; apply Z.mod_small; lia).
    rewrite Hu in Hrun.
    destruct (Z.ltb_spec 0 (ret r1)) as [H1 | H1];
      [| rewrite Hrun; split; [by intros (e & [=] & _) | lia]].
    assert (Hw : take (Z.to_nat (ret r1)) (socket_.store buffer (r_data r1))
                 = r_data r1).
    { rewrite <- Hlen, Nat2Z.id. apply take_store. }
    rewrite Hw in Hrun.
    pose proof (scan_eol_found (r_data r1) 0 0 ltac:(lia)) as Hf.
    destruct (Z.ltb_spec (socket_.scan_eol (r_data r1) 0 0).2 2) as [Hlt | Hge].
    + pose proof (scan_eol_exhausts (r_data r1) 0 0 Hlt) as Hp.
      rewrite Hp, Hlen, Z.add_0_l, Z.ltb_irrefl in Hrun. cbn [andb] in Hrun.
      rewrite Hrun. split; [intros _; lia |]. intros _. eexists. split; done.
    + rewrite andb_false_r in Hrun. split; [| lia].
      rewrite Hrun. intros (e & He & Hc).
      repeat match type of He with
             | context [if ?b then _ else _] => destruct b
             end; try discriminate He.
      injection He as <-. cbn [what] in Hc.
      by rewrite read_error_is_not_line_error in Hc.
  - intros H1 Hc. specialize (Hlen ltac:(lia)).
    assert (Hu : to_unsigned (ret r1) = ret r1)
      by (unfold to_unsigned; apply Z.mod_small; lia).
    rewrite Hu in Hrun.
    assert (Hw : take (Z.to_nat (ret r1)) (socket_.store buffer (r_data r1))
                 = r_data r1).
    { rewrite <- Hlen, Nat2Z.id. apply take_store. }
    rewrite Hw in Hrun.
    pose proof (scan_eol_found (r_data r1) 0 0 ltac:(lia)) as Hf.
    assert (Hlt : (socket_.scan_eol (r_data r1) 0 0).2 < 2) by lia.
    pose proof (scan_eol_exhausts (r_data r1) 0 0 Hlt) as Hp.
    rewrite Hp, Hlen, Z.add_0_l, Z.ltb_irrefl in Hrun. cbn [andb] in Hrun.
    apply Z.ltb_lt in Hlt. rewrite Hlt in Hrun.
    assert (Hneg : (ret r1 <? 0) = false) by (apply Z.ltb_ge; lia).
    assert (Hpos : (0 <? ret r1) = true) by (apply Z.ltb_lt; lia).
    rewrite Hneg, Hpos in Hrun. rewrite Hrun, Hf.
    replace (Z.min 2 (0 + count_eol (r_data r1))) with (count_eol (r_data r1))
      by lia.
    done.
Qed.

(** [read_line] on a stream socket whose queue holds two markers among its
    first 4096 bytes: with [p] the position right behind the second marker,
    it takes exactly the first [p] bytes from the queue and returns them
    without the last two. *)
Lemma read_line_stream (w : world) (fd p : Z) (buffer q : list ascii) :
  rx w !! fd = Some q →
  socket_.scan_eol (take 4096 q) 0 0 = (p, 2) →
  run stream_os (socket_.read_line {| fd_ := fd |} buffer) w =
  (socket_.store (socket_.store buffer (take 4096 q)) (take (Z.to_nat p) q),
   Return (take (Z.to_nat (p - 2)) q),
   {| rx := <[fd := drop (Z.to_nat p) q]> (rx w); peer := peer w; room := room w |},
   [sys_recv fd 4096 MSG_PEEK; sys_recv fd p 0]).
Proof.
  intros Hq Hscan.
  pose proof (scan_eol_bounds _ _ _ _ _ Hscan) as (Hp & _ & Hp2).
  rewrite read_line_run. cbv zeta. cbn [fd_].
  change socket_.BUFFER_SIZE with 4096.
  rewrite (stream_recv w fd 4096 MSG_PEEK q Hq).
  change (Z.to_nat 4096) with 4096%nat.
  cbn [fst snd ret r_data errno]. change (Z.land MSG_PEEK MSG_PEEK =? 0) with false.
  cbn match.
  set (window := take 4096 q) in *.
  assert (Hwin : Z.of_nat (length window) ≤ 4096)
    by (subst window; rewrite length_take; lia).
  assert (Hu : to_unsigned (Z.of_nat (length window)) = Z.of_nat (length window))
    by (unfold to_unsigned; apply Z.mod_small; lia).
  rewrite Hu, Nat2Z.id, take_store, Hscan. cbn [fst snd].
  rewrite (stream_recv w fd p 0 q Hq). cbn [fst snd ret r_data errno].
  change (Z.land 0 MSG_PEEK =? 0) with true. cbn match.
  assert (Hlen : length (take (Z.to_nat p) q) = Z.to_nat p).
  { rewrite length_take. subst window. rewrite length_take in Hp. lia. }
  rewrite Hlen, Z2Nat.id by lia.
  assert (Hu2 : to_unsigned (to_unsigned p - 2) = p - 2).
  { unfold to_unsigned. rewrite (Z.mod_small p) by lia. apply Z.mod_small. lia. }
  rewrite Hu2.
  assert (E1 : (Z.of_nat (length window) <? 0) = false) by (apply Z.ltb_ge; lia).
  assert (E2 : (0 <? Z.of_nat (length window)) = true) by (apply Z.ltb_lt; lia).
  assert (E3 : (p <? Z.of_nat (length window)) && (2 <? 2) = false)
    by (rewrite andb_false_r; done).
  assert (E4 : (p <? 0) = false) by (apply Z.ltb_ge; lia).
  assert (E5 : (4096 <? p - 2) = false) by (apply Z.ltb_ge; lia).
  rewrite E1, E2, E3, E4, E5. change (2 <? 2) with false. cbn match.
  assert (Ht : take (Z.to_nat (p - 2))
                 (socket_.store (socket_.store buffer window) (take (Z.to_nat p) q))
               = take (Z.to_nat (p - 2)) q).
  { unfold socket_.store at 1.
    rewrite take_app_le by lia. rewrite take_take. f_equal. lia. }
  by rewrite Ht.
Qed.

(** When the first two markers of the queue stand next to each other,
    [read_line] returns the bytes before them and takes the line and the two
    markers from the queue, nothing more. *)
Lemma read_line_adjacent_markers (w : world) (fd : Z)
    (buffer line rest : list ascii) (m1 m2 : ascii) :
  rx w !! fd = Some (line ++ m1 :: m2 :: rest) →
  Forall (λ c, socket_.is_eol c = false) line →
  socket_.is_eol m1 = true → socket_.is_eol m2 = true →
  Z.of_nat (length line) + 2 ≤ 4096 →
  let x := run stream_os (socket_.read_line {| fd_ := fd |} buffer) w in
  result_of x = Return line ∧ rx (world_of x) !! fd = Some rest.
Proof.
  intros Hq Hline H1 H2 Hlen x. subst x.
  set (q := line ++ m1 :: m2 :: rest) in *.
  assert (Hscan : socket_.scan_eol (take 4096 q) 0 0
                  = (Z.of_nat (length line) + 2, 2)).
  { subst q. rewrite take_app, (take_ge line) by lia.
    destruct (4096 - length line)%nat as [| [| k]] eqn:E; [lia | lia |].
    cbn [take]. by rewrite scan_eol_line. }
  rewrite (read_line_stream w fd _ buffer q Hq Hscan).
  cbn [result_of world_of fst snd rx]. rewrite lookup_insert_eq.
  replace (Z.of_nat (length line) + 2 - 2) with (Z.of_nat (length line)) by lia.
  replace (Z.to_nat (Z.of_nat (length line) + 2)) with (length line + 2)%nat by lia.
  rewrite Nat2Z.id. subst q. split; f_equal.
  - apply take_app_length.
  - rewrite <- drop_drop, drop_app_length. reflexivity.
Qed.

(** C1. Round trip over a connection of stream sockets: [write_line X] on
    the handle of descriptor [a], then [read_line] on the handle of its peer
    [b], returns [X], byte for byte, and leaves the peer's queue empty. [X]
    holds no CR and no LF and [X] with its CRLF is at most 4096 bytes long;
    the peer's queue is empty beforehand and [send] takes the whole line. *)
Theorem write_line_read_line_roundtrip (w : world) (a b : Z)
    (X buffer : list ascii) :
  0 < a → peer w !! a = Some b → rx w !! b = Some [] →
  Forall (λ c, c ≠ CR ∧ c ≠ LF) X →
  Z.of_nat (length X) + 2 ≤ 4096 →
  Z.of_nat (length X) + 2 ≤ room w →
  let x := run stream_os (socket_.write_line {| fd_ := a |} X tt) w in
  let y := run stream_os (socket_.read_line {| fd_ := b |} buffer) (world_of x) in
  result_of x = Return (Z.of_nat (length X) + 2) ∧
  result_of y = Return X ∧ rx (world_of y) !! b = Some [].
Proof.
  intros Ha Hpeer Hrx HX Hlen Hroom x y.
  assert (Hl : Z.of_nat (length (X ++ [CR; LF])) = Z.of_nat (length X) + 2)
    by (rewrite length_app; cbn; lia).
  assert (Hx : x = (tt, Return (Z.of_nat (length X) + 2),
                    {| rx := <[b := X ++ [CR; LF]]> (rx w); peer := peer w;
                       room := room w |},
                    [sys_send a (X ++ [CR; LF]) (Z.of_nat (length X) + 2) 0])).
  { subst x. unfold socket_.write_line. rewrite write_run by (cbn; lia).
    cbn [fd_]. rewrite Hl. cbn [stream_os]. rewrite Hpeer, Hrx.
    cbn [fst snd ret errno success default].
    rewrite Z.min_l by lia. rewrite <- Hl, Nat2Z.id, firstn_all.
    rewrite Hl. cbn [app].
    assert (E : (Z.of_nat (length X) + 2 <? 0) = false) by (apply Z.ltb_ge; lia).
    rewrite E. unfold to_unsigned. rewrite Z.mod_small by lia. reflexivity. }
  subst y. rewrite Hx. cbn [result_of world_of fst snd].
  split; [done |].
  assert (Hline : Forall (λ c, socket_.is_eol c = false) X).
  { eapply Forall_impl; [exact HX |]. intros c [H1 H2]. unfold socket_.is_eol.
    by rewrite !bool_decide_eq_false_2. }
  destruct (read_line_adjacent_markers
              {| rx := <[b := X ++ [CR; LF]]> (rx w); peer := peer w; room := room w |}
              b buffer X [] CR LF) as [Hr Hq]; try done.
  cbn [rx]. apply lookup_insert_eq.
Qed.

(** C2, at a queue whose first two markers do not stand next to each other:
    the queue holds "a", CR, "b", LF. [read_line] takes the four bytes and
    returns "a", CR: the bytes taken without the last two, which are not the
    bytes before the first marker. *)
Theorem read_line_markers_apart :
  let w := {| rx := {[ 4 := bytes "a" ++ [CR] ++ bytes "b" ++ [LF] ]};
              peer := ∅; room := 0 |} in
  let x := run stream_os (socket_.read_line {| fd_ := 4 |} zero_buffer) w in
  result_of x = Return (bytes "a" ++ [CR]) ∧
  result_of x ≠ Return (bytes "a") ∧
  trace_of x = [sys_recv 4 4096 MSG_PEEK; sys_recv 4 4 0] ∧
  rx (world_of x) !! 4 = Some [].
Proof. vm_compute. repeat split. discriminate. Qed.

(** ** Handles and descriptors *)

(** A [noexcept] function issues the calls of its body; an exception of the
    body ends the process. *)
Lemma run_noexcept {W S A} (os : syscall → W → reply * W) (w : W)
    (m : action S A) (s : S) :
  run os (noexcept_ m s) w =
  (memory_of (run os (m s) w),
   match result_of (run os (m s) w) with
   | Throw e => Terminate e
   | o => o
   end,
   world_of (run os (m s) w), trace_of (run os (m s) w)).
Proof.
  unfold noexcept_. generalize (m s) as p. intros p. revert w.
  induction p as [[s' o] | c k IH]; intros w; cbn [prog_bind run].
  - by destruct o.
  - destruct (os c w) as [r w1]. rewrite IH.
    by destruct (run os (k r) w1) as [[[? ?] ?] ?].
Qed.

(** The destructor, run on any operating system. *)
Lemma dtor_run {W} (os : syscall → W → reply * W) (w : W) (this : socket) :
  run os (socket_.dtor this tt) w =
  if 0 <? fd_ this then
    (tt,
     if ret (os (sys_close (fd_ this)) w).1 <? 0
     then Terminate {| what := "Error closing socket: "
                                 +:+ show_int (errno (os (sys_close (fd_ this)) w).1) |}
     else Return tt,
     (os (sys_close (fd_ this)) w).2, [sys_close (fd_ this)])
  else (tt, Return tt, w, []).
Proof.
  unfold socket_.dtor. rewrite run_noexcept.
  destruct (0 <? fd_ this); [| reflexivity].
  rewrite run_call. by destruct (ret _ <? 0).
Qed.

Lemma holders_app (fd : Z) (l1 l2 : list socket) :
  length (holders fd (l1 ++ l2))
  = (length (holders fd l1) + length (holders fd l2))%nat.
Proof. unfold holders. by rewrite filter_app, length_app. Qed.

(** A handle is a holder of the descriptor it stores, and of no other. *)
Lemma holders_one (fd : Z) (s : socket) :
  length (holders fd [s]) = if decide (fd_ s = fd) then 1%nat else 0%nat.
Proof. unfold holders. rewrite filter_cons. by case_decide. Qed.

Lemma holders_delete (fd : Z) (i : nat) (live : list socket) :
  (length (holders fd (delete i live)) ≤ length (holders fd live))%nat.
Proof.
  unfold holders. revert i. induction live as [| s live IH]; intros i; [done |].
  destruct i as [| i]; cbn [delete list_delete].
  - rewrite filter_cons. case_decide; cbn [length]; lia.
  - rewrite !filter_cons. specialize (IH i).
    case_decide; cbn [length]; [apply le_n_S |]; exact IH.
Qed.

(** A live handle is among the holders of its descriptor. *)
Lemma holders_lookup (i : nat) (s : socket) (live : list socket) :
  live !! i = Some s → (1 ≤ length (holders (fd_ s) live))%nat.
Proof.
  intros Hi. assert (Hin : s ∈ holders (fd_ s) live).
  { unfold holders. apply list_elem_of_filter. split; [done |].
    by eapply list_elem_of_lookup_2. }
  destruct (holders (fd_ s) live); [by apply not_elem_of_nil in Hin |].
  cbn [length]. lia.
Qed.

(** An exclusive operation keeps the descriptors with one holder each. *)
Lemma exclusive_op_keeps (live : list socket) (op : handle_op) :
  single_owner live → exclusive_op live op → single_owner (apply_op live op).
Proof.
  intros Hinv Hop fd Hfd. specialize (Hinv fd Hfd).
  destruct op as [| fd' | i | i]; cbn [apply_op exclusive_op] in Hop |- *.
  - rewrite holders_app, holders_one. cbn [socket_.ctor fd_].
    case_decide; lia.
  - rewrite holders_app, holders_one. cbn [socket_.ctor_fd fd_].
    case_decide as E; [| lia]. subst fd'. rewrite (Hop Hfd). cbn [length]. lia.
  - destruct (live !! i) as [s |]; [| done].
    rewrite holders_app, holders_one. cbn [socket_.ctor_copy fd_].
    case_decide; lia.
  - pose proof (holders_delete fd i live). lia.
Qed.

(** An operation after which every valid descriptor still has one holder was
    an exclusive one. *)
Lemma single_owner_step (live : list socket) (op : handle_op) :
  single_owner (apply_op live op) → exclusive_op live op.
Proof.
  intros Hinv. destruct op as [| fd | i | i]; cbn [apply_op exclusive_op] in Hinv |- *;
    try done.
  - intros Hfd. specialize (Hinv fd Hfd).
    rewrite holders_app, holders_one in Hinv. cbn [socket_.ctor_fd fd_] in Hinv.
    case_decide; [| done].
    destruct (holders fd live); [done | cbn [length] in Hinv; lia].
  - destruct (live !! i) as [s |] eqn:Hi; [| done].
    destruct (Z.le_gt_cases (fd_ s) 0) as [Hle | Hpos]; [done |].
    specialize (Hinv (fd_ s) ltac:(lia)).
    rewrite holders_app, holders_one in Hinv. cbn [socket_.ctor_copy fd_] in Hinv.
    pose proof (holders_lookup i s live Hi).
    case_decide; [lia | done].
Qed.

(** From live handles with one holder per valid descriptor: the descriptors
    keep one holder each all along a sequence exactly when each of its
    operations is exclusive. *)
Lemma single_owner_along (live : list socket) (ops : list handle_op) :
  single_owner live →
  (∀ n, single_owner (apply_ops live (take n ops))) ↔ exclusive_ops live ops.
Proof.
  revert live. induction ops as [| op ops IH]; intros live Hinv.
  - split; [done |]. intros _ n. by rewrite take_nil.
  - split.
    + intros H. pose proof (H 1%nat) as H1. cbn in H1.
      split; [by apply single_owner_step |].
      apply IH; [done |]. intros n. apply (H (S n)).
    + intros [Hop Hops] [| n]; [done |].
      cbn [take apply_ops foldl].
      apply (IH (apply_op live op)); [by apply exclusive_op_keeps | done].
Qed.

(** With copies among the operations a valid descriptor can have two
    holders: after descriptor 3 was wrapped and the handle copied, two live
    handles hold it. *)
Lemma copy_shares_descriptor :
  ¬ (∀ (ops : list handle_op) (fd : Z),
       0 < fd → (length (holders fd (apply_ops [] ops)) ≤ 1)%nat).
Proof.
  intros H. specialize (H [op_wrap 3; op_copy 0] 3 ltac:(lia)).
  vm_compute in H. lia.
Qed.

(** C9, as the code has it. The destructor calls [close] only when the
    stored descriptor is greater than 0, and then once, on that descriptor. A
    copy holds the descriptor value of its source. Over a sequence of
    constructions, copies and destructions, no valid descriptor is held by
    two live handles at any point of the sequence exactly when the sequence
    never copies a handle that holds a valid descriptor and never wraps a
    valid descriptor that a live handle holds. *)
Theorem handles_exclusive_iff {W} (os : syscall → W → reply * W)
    (w : W) (ops : list handle_op) :
  ((∀ n fd, 0 < fd → (length (holders fd (apply_ops [] (take n ops))) ≤ 1)%nat)
   ↔ exclusive_ops [] ops) ∧
  (∀ this, trace_of (run os (socket_.dtor this tt) w)
           = if 0 <? fd_ this then [sys_close (fd_ this)] else []) ∧
  (∀ s, fd_ (socket_.ctor_copy s) = fd_ s).
Proof.
  split; [| split].
  - apply (single_owner_along [] ops). intros fd _. cbn. lia.
  - intros this. rewrite dtor_run. by destruct (0 <? fd_ this).
  - done.
Qed.

(** ** [socket_impl::connect] *)

Section connector_facts.
Variable gai_strerror : Z → string.
Context {W : Type} (os : syscall → W → reply * W).

(** [connect] on a handle without a valid descriptor, run as far as the
    finishing step. *)
Lemma connect_run (T : derived) (w : W) (this : socket_impl)
    (name : string) (port : Z) :
  fd_ (base this) ≤ 0 →
  let c1 := resolve_call traits name port in
  let r1 := (os c1 w).1 in
  let w1 := (os c1 w).2 in
  run os (socket_impl_.connect gai_strerror (T := T) name port this) w =
  if negb (ret r1 =? 0) then
    (this,
     Throw {| what := "Could not resolve address: (" +:+ show_int (ret r1)
                        +:+ ") " +:+ gai_strerror (ret r1) |}, w1, [c1])
  else
    match r_addrs r1 with
    | [] => (set_res0 this [], Undefined, w1, [c1])
    | res0 :: rest =>
        let c2 := create_call res0 in
        let r2 := (os c2 w1).1 in
        let w2 := (os c2 w1).2 in
        let this2 := set_fd (set_res0 this (res0 :: rest)) (ret r2) in
        if ret r2 <? 0 then
          (this2,
           Throw {| what := "Could not create socket: " +:+ show_int (errno r2) |},
           w2, [c1; c2])
        else
          ((run os (do_connect this2) w2).1,
           c1 :: c2 :: (run os (do_connect this2) w2).2)
    end.
Proof.
  intros Hfd c1 r1 w1. unfold socket_impl_.connect.
  unfold bind at 1. cbn [get prog_bind].
  destruct (0 <? fd_ (base this)) eqn:E; [apply Z.ltb_lt in E; lia |].
  rewrite run_call. fold (resolve_call traits name port). fold c1 r1 w1.
  destruct (negb (ret r1 =? 0)); [reflexivity |].
  run_os. cbn [set_res0 res0_].
  destruct (r_addrs r1) as [| res0 rest]; [reflexivity |].
  rewrite run_call. fold (create_call res0).
  run_os. cbn [set_fd base fd_].
  destruct (ret (os (create_call res0) w1).1 <? 0); [reflexivity |].
  destruct (run os _ _) as [[y1 y2] y3]. reflexivity.
Qed.

(** Past its guard, [connect] starts with the resolution call. *)
Lemma connect_resolves_first (T : derived) (w : W) (this : socket_impl)
    (name : string) (port : Z) :
  fd_ (base this) ≤ 0 →
  ∃ t, trace_of (run os (socket_impl_.connect gai_strerror (T := T)
                           name port this) w)
       = resolve_call traits name port :: t.
Proof.
  intros Hfd. unfold socket_impl_.connect.
  unfold bind at 1. cbn [get prog_bind].
  destruct (0 <? fd_ (base this)) eqn:E; [apply Z.ltb_lt in E; lia |].
  rewrite run_call. cbn [trace_of snd]. eauto.
Qed.

(** The guard at the head of [connect]. *)
Lemma connect_on_connected_handle_aux (T : derived) (w : W)
    (this : socket_impl) (name : string) (port : Z) :
  0 < fd_ (base this) →
  run os (socket_impl_.connect gai_strerror (T := T) name port this) w
  = (this, Throw {| what := "Socket already exists." |}, w, []).
Proof.
  intros Hfd. unfold socket_impl_.connect.
  unfold bind at 1. cbn [get prog_bind].
  apply Z.ltb_lt in Hfd. rewrite Hfd. reflexivity.
Qed.

(** C4. [connect] on a handle that holds a valid descriptor raises
    "Socket already exists." at once: no call is issued, and the handle,
    descriptor and stored address list, is what it was. The derived type is
    arbitrary, so this is so for the client and for the server. *)
Theorem connect_on_connected_handle (T : derived) (w : W)
    (this : socket_impl) (name : string) (port : Z) :
  0 < fd_ (base this) →
  run os (socket_impl_.connect gai_strerror (T := T) name port this) w
  = (this, Throw {| what := "Socket already exists." |}, w, []).
Proof.
  intros Hfd. unfold socket_impl_.connect.
  unfold bind at 1. cbn [get prog_bind].
  destruct (Z.ltb_spec 0 (fd_ (base this))) as [_ | Hle]; [reflexivity | lia].
Qed.

(** The client's finishing step: one [connect] call on the first
    candidate's address. *)
Lemma client_do_connect_run (w : W) (this : socket_impl)
    (res0 : addrinfo) (rest : list addrinfo) :
  res0_ this = res0 :: rest →
  let c := sys_connect (fd_ (base this)) (ai_addr res0) (ai_addrlen res0) in
  let r := (os c w).1 in
  run os (client_.do_connect this) w =
  (this,
   if ret r <? 0
   then Throw {| what := "Connection failed: " +:+ show_int (errno r) |}
   else Return tt,
   (os c w).2, [c]).
Proof.
  intros Hres c r. unfold client_.do_connect.
  unfold bind at 1. cbn [get prog_bind]. rewrite Hres.
  rewrite run_call. fold c r. by destruct (ret r <? 0).
Qed.

(** The server's finishing step, run on any operating system. *)
Lemma server_do_connect_run (w : W) (this : socket_impl)
    (res0 : addrinfo) (rest : list addrinfo) :
  res0_ this = res0 :: rest →
  let fd := fd_ (base this) in
  let c1 := sys_setsockopt fd SOL_SOCKET SO_REUSEADDR 1 4 in
  let c2 := sys_bind fd (ai_addr res0) (ai_addrlen res0) in
  let c3 := sys_listen fd 10000 in
  let r1 := (os c1 w).1 in
  let w1 := (os c1 w).2 in
  let r2 := (os c2 w1).1 in
  let w2 := (os c2 w1).2 in
  let r3 := (os c3 w2).1 in
  let w3 := (os c3 w2).2 in
  run os (server_.do_connect this) w =
  if ret r1 <? 0 then
    (this, Throw {| what := "Could not configure socket: " +:+ show_int (errno r1) |},
     w1, [c1])
  else if ret r2 <? 0 then
    (this, Throw {| what := "Could not bind to socket: " +:+ show_int (errno r2) |},
     w2, [c1; c2])
  else if ret r3 <? 0 then
    (this, Throw {| what := "Could not listen for incoming connections: "
                              +:+ show_int (errno r3) |},
     w3, [c1; c2; c3])
  else (this, Return tt, w3, [c1; c2; c3]).
Proof.
  intros Hres fd c1 c2 c3 r1 w1 r2 w2 r3 w3. unfold server_.do_connect.
  unfold bind at 1. cbn [get prog_bind].
  rewrite run_call. fold fd c1 r1 w1.
  destruct (ret r1 <? 0); [reflexivity |].
  rewrite Hres, run_call. fold fd c2 r2 w2.
  destruct (ret r2 <? 0); [reflexivity |].
  rewrite run_call. fold fd c3 r3 w3.
  by destruct (ret r3 <? 0).
Qed.

(** C6. The server's finishing step issues [setsockopt] for
    [SO_REUSEADDR], then [bind] to the first resolved address, then
    [listen] with backlog 10000, in this order and nothing else; the first
    of them that returns a negative value ends the step with the error that
    embeds [errno], and the calls after it are not issued. *)
Theorem server_do_connect_steps (w : W) (this : socket_impl)
    (res0 : addrinfo) (rest : list addrinfo) :
  res0_ this = res0 :: rest →
  let fd := fd_ (base this) in
  let c1 := sys_setsockopt fd SOL_SOCKET SO_REUSEADDR 1 4 in
  let c2 := sys_bind fd (ai_addr res0) (ai_addrlen res0) in
  let c3 := sys_listen fd 10000 in
  let r1 := (os c1 w).1 in
  let w1 := (os c1 w).2 in
  let r2 := (os c2 w1).1 in
  let w2 := (os c2 w1).2 in
  let r3 := (os c3 w2).1 in
  let w3 := (os c3 w2).2 in
  let x := run os (server_.do_connect this) w in
  server_calls fd res0 = [c1; c2; c3] ∧
  (ret r1 < 0 →
     x = (this, Throw {| what := "Could not configure socket: "
                                   +:+ show_int (errno r1) |}, w1, [c1])) ∧
  (0 ≤ ret r1 → ret r2 < 0 →
     x = (this, Throw {| what := "Could not bind to socket: "
                                   +:+ show_int (errno r2) |}, w2, [c1; c2])) ∧
  (0 ≤ ret r1 → 0 ≤ ret r2 → ret r3 < 0 →
     x = (this, Throw {| what := "Could not listen for incoming connections: "
                                   +:+ show_int (errno r3) |}, w3, [c1; c2; c3])) ∧
  (0 ≤ ret r1 → 0 ≤ ret r2 → 0 ≤ ret r3 →
     x = (this, Return tt, w3, [c1; c2; c3])).
Proof.
  intros Hres fd c1 c2 c3 r1 w1 r2 w2 r3 w3 x. subst x.
  rewrite (server_do_connect_run w this res0 rest Hres).
  fold fd c1 c2 c3 r1 w1 r2 w2 r3 w3.
  split; [reflexivity |].
  destruct (Z.ltb_spec (ret r1) 0), (Z.ltb_spec (ret r2) 0),
    (Z.ltb_spec (ret r3) 0); repeat split; intros; (done || lia).
Qed.

(** Neither finishing step looks past the first candidate, nor changes the
    handle. *)
Lemma do_connect_first_candidate (T : derived) (w : W) (this : socket_impl)
    (res0 : addrinfo) (rest : list addrinfo) :
  client_or_server T → res0_ this = res0 :: rest →
  let y := run os (do_connect this) w in
  let y1 := run os (do_connect (set_res0 this [res0])) w in
  memory_of y = this ∧ result_of y = result_of y1
  ∧ world_of y = world_of y1 ∧ trace_of y = trace_of y1.
Proof.
  intros [-> | ->] Hres; cbn [do_connect client server].
  - rewrite (client_do_connect_run w this res0 rest Hres).
    by rewrite (client_do_connect_run w (set_res0 this [res0]) res0 []).
  - rewrite (server_do_connect_run w this res0 rest Hres).
    rewrite (server_do_connect_run w (set_res0 this [res0]) res0 []) by done.
    cbn [set_res0 base].
    repeat match goal with |- context [if ?b then _ else _] => destruct b end;
      done.
Qed.

(** C5. [connect] on a handle without a valid descriptor (1) resolves
    [name] and [port] with the four constants of the trait bundle as hints,
    and raises the error that embeds the resolver's code when the resolver
    returns one; (2) creates the descriptor from the family, socket type
    and protocol of the first candidate, and raises the error that embeds
    [errno] when that fails; (3) runs the finishing step of the derived
    type on the handle that holds the new descriptor and the candidates.
    No other call is issued, and the finishing step behaves as if the
    first candidate were the only one. *)
Theorem connect_steps (T : derived) (w : W) (this : socket_impl)
    (name : string) (port : Z) :
  client_or_server T → fd_ (base this) ≤ 0 →
  let c1 :=
    sys_getaddrinfo name (show_int port)
      {| ai_flags := flags traits; ai_family := family traits;
         ai_socktype := type traits; ai_protocol := protocol traits;
         ai_addrlen := 0; ai_addr := [] |} in
  let r1 := (os c1 w).1 in
  let w1 := (os c1 w).2 in
  let x := run os (socket_impl_.connect gai_strerror (T := T) name port this) w in
  (ret r1 ≠ 0 →
     x = (this,
          Throw {| what := "Could not resolve address: (" +:+ show_int (ret r1)
                             +:+ ") " +:+ gai_strerror (ret r1) |},
          w1, [c1])) ∧
  (ret r1 = 0 → ∀ res0 rest, r_addrs r1 = res0 :: rest →
     let c2 := sys_socket (ai_family res0) (ai_socktype res0) (ai_protocol res0) in
     let r2 := (os c2 w1).1 in
     let w2 := (os c2 w1).2 in
     let this2 := set_fd (set_res0 this (res0 :: rest)) (ret r2) in
     (ret r2 < 0 →
        x = (this2,
             Throw {| what := "Could not create socket: " +:+ show_int (errno r2) |},
             w2, [c1; c2])) ∧
     (0 ≤ ret r2 →
        let y := run os (do_connect this2) w2 in
        let y1 := run os (do_connect (set_fd (set_res0 this [res0]) (ret r2))) w2 in
        x = (this2, result_of y, world_of y, c1 :: c2 :: trace_of y) ∧
        result_of y = result_of y1 ∧ world_of y = world_of y1
        ∧ trace_of y = trace_of y1)).
Proof.
  intros HT Hfd c1 r1 w1 x.
  pose proof (connect_run T w this name port Hfd) as Hrun.
  cbv zeta in Hrun. unfold resolve_call, create_call in Hrun.
  fold c1 r1 w1 x in Hrun. split.
  - intros Hr. apply Z.eqb_neq in Hr. by rewrite Hrun, Hr.
  - intros Hr res0 rest Hres c2 r2 w2 this2.
    rewrite Hr, Hres in Hrun. cbn [negb Z.eqb] in Hrun.
    fold c2 r2 w2 this2 in Hrun. split.
    + intros H2. apply Z.ltb_lt in H2. by rewrite Hrun, H2.
    + intros H2 y y1. apply Z.ltb_ge in H2. rewrite H2 in Hrun.
      destruct (do_connect_first_candidate T w2 this2 res0 rest HT eq_refl)
        as (Hm & Ho & Hw & Ht).
      fold y y1 in Hm, Ho, Hw, Ht, Hrun. split; [| done].
      rewrite Hrun. rewrite <- Hm at 1. by destruct y as [[[? ?] ?] ?].
Qed.

(** C10. What a failed [connect] leaves in the handle. When resolution
    fails the handle is as before, and the next [connect] starts with
    resolution again. When descriptor creation fails the handle holds the
    negative value returned, [write] on it calls [send] on that value and
    its error is not "Not connected". When the finishing step raises, the
    handle holds the descriptor just created, and when that value is
    positive every later [connect] raises "Socket already exists." and
    issues no call. *)
Theorem connect_failure_states (T : derived) (w : W) (this : socket_impl)
    (name : string) (port : Z) :
  client_or_server T → fd_ (base this) ≤ 0 →
  let c1 := resolve_call traits name port in
  let r1 := (os c1 w).1 in
  let w1 := (os c1 w).2 in
  let x := run os (socket_impl_.connect gai_strerror (T := T) name port this) w in
  let this' := memory_of x in
  (ret r1 ≠ 0 →
     (∃ e, result_of x = Throw e) ∧ this' = this ∧
     ∀ (w' : W) name' port', ∃ t,
       trace_of (run os (socket_impl_.connect gai_strerror (T := T)
                           name' port' this') w')
       = resolve_call traits name' port' :: t) ∧
  (ret r1 = 0 → ∀ res0 rest, r_addrs r1 = res0 :: rest →
     let c2 := create_call res0 in
     let r2 := (os c2 w1).1 in
     let w2 := (os c2 w1).2 in
     let this2 := set_fd (set_res0 this (res0 :: rest)) (ret r2) in
     (ret r2 < 0 →
        (∃ e, result_of x = Throw e) ∧ fd_ (base this') = ret r2 ∧
        ∀ (w' : W) buffer length,
          let y := run os (socket_.write (base this') buffer length tt) w' in
          trace_of y = [sys_send (ret r2) buffer length 0] ∧
          result_of y ≠ Throw {| what := "Not connected" |}) ∧
     (0 ≤ ret r2 → ∀ e, result_of (run os (do_connect this2) w2) = Throw e →
        result_of x = Throw e ∧ fd_ (base this') = ret r2 ∧
        (0 < ret r2 → ∀ (w' : W) name' port',
           run os (socket_impl_.connect gai_strerror (T := T)
                     name' port' this') w'
           = (this', Throw {| what := "Socket already exists." |}, w', [])))).
Proof.
  intros HT Hfd c1 r1 w1 x this'.
  pose proof (connect_run T w this name port Hfd) as Hrun.
  cbv zeta in Hrun. fold c1 r1 w1 x in Hrun. split.
  - intros Hr. apply Z.eqb_neq in Hr. rewrite Hr in Hrun.
    cbn [negb] in Hrun. subst this'.
    rewrite Hrun. cbn [memory_of result_of trace_of fst snd].
    split; [eauto |]. split; [done |]. intros w' name' port'.
    by apply connect_resolves_first.
  - intros Hr res0 rest Hres c2 r2 w2 this2.
    rewrite Hr, Hres in Hrun. cbn [negb Z.eqb] in Hrun.
    fold c2 r2 w2 this2 in Hrun. split.
    + intros H2. pose proof H2 as H2'. apply Z.ltb_lt in H2'.
      rewrite H2' in Hrun. subst this'. rewrite Hrun.
      cbn [memory_of result_of trace_of fst snd].
      split; [eauto |]. split; [done |]. intros w' buffer length.
      rewrite write_run by (change (fd_ (base this2)) with (ret r2); lia).
      change (fd_ (base this2)) with (ret r2).
      cbn [trace_of result_of fst snd]. split; [done |].
      intros H. destruct (ret (os _ w').1 <? 0); [cbn in H |]; discriminate H.
    + intros H2 e He. apply Z.ltb_ge in H2. rewrite H2 in Hrun.
      destruct (do_connect_first_candidate T w2 this2 res0 rest HT eq_refl)
        as (Hm & _).
      subst this'. rewrite Hrun.
      destruct (run os (do_connect this2) w2) as [[[m o] w3] t] eqn:Ey.
      cbn in Hm, He |- *. subst m o. split; [done |]. split; [done |].
      intros Hpos w' name' port'.
      by apply connect_on_connected_handle_aux.
Qed.

End connector_facts.

(** * The theorems at concrete inputs *)

Lemma write_line_read_line_roundtrip_witness :
  let x := run stream_os (socket_.write_line {| fd_ := 3 |} (bytes "foobar") tt)
               connected_pair in
  let y := run stream_os (socket_.read_line {| fd_ := 4 |} zero_buffer) (world_of x) in
  result_of x = Return (Z.of_nat (length (bytes "foobar")) + 2) ∧
  result_of y = Return (bytes "foobar") ∧ rx (world_of y) !! 4 = Some [].
Proof.
  apply (write_line_read_line_roundtrip connected_pair 3 4 (bytes "foobar") zero_buffer).
  - lia.
  - reflexivity.
  - reflexivity.
  - repeat constructor; discriminate.
  - simpl. lia.
  - simpl. lia.
Defined.

Lemma read_line_no_line_witness :
  let w := {| rx := {[ 4 := bytes "foo" ++ [LF] ++ bytes "bar" ]}; peer := ∅;
              room := 0 |} in
  let x := run stream_os (socket_.read_line {| fd_ := 4 |} zero_buffer) w in
  result_of x = Throw {| what := "Line not found: 1" |} ∧ world_of x = w.
Proof.
  intros w x.
  destruct (read_line_no_line stream_os w {| fd_ := 4 |} zero_buffer)
    as (_ & _ & H & _).
  - vm_compute. discriminate.
  - intros _. vm_compute. reflexivity.
  - destruct H as (H1 & _ & H2).
    + vm_compute. discriminate.
    + vm_compute. reflexivity.
    + split; [exact H1 | exact H2].
Defined.

Lemma connect_on_connected_handle_witness :
  let this := {| base := {| fd_ := 3 |}; res0_ := [candidate_a] |} in
  0 < fd_ (base this) ∧
  run scripted (socket_impl_.connect gai_strerror_gnu (T := tcp_client)
                  "localhost" 1234 this) [resolved [candidate_a]; success 5]
  = (this, Throw {| what := "Socket already exists." |},
     [resolved [candidate_a]; success 5], []) ∧
  run scripted (socket_impl_.connect gai_strerror_gnu (T := tcp_server)
                  "localhost" 1234 this) [resolved [candidate_a]; success 5]
  = (this, Throw {| what := "Socket already exists." |},
     [resolved [candidate_a]; success 5], []).
Proof.
  intros this. split; [simpl; lia |]. split.
  - apply (connect_on_connected_handle gai_strerror_gnu scripted tcp_client).
    simpl. lia.
  - apply (connect_on_connected_handle gai_strerror_gnu scripted tcp_server).
    simpl. lia.
Defined.

Lemma server_do_connect_steps_witness :
  let this := {| base := {| fd_ := 3 |}; res0_ := [candidate_a; candidate_b] |} in
  run scripted (server_.do_connect this) [success 0; failure 98; success 0]
  = (this, Throw {| what := "Could not bind to socket: 98" |}, [success 0],
     [sys_setsockopt 3 SOL_SOCKET SO_REUSEADDR 1 4;
      sys_bind 3 (ai_addr candidate_a) 16]).
Proof.
  intros this.
  destruct (server_do_connect_steps scripted [success 0; failure 98; success 0]
              this candidate_a [candidate_b] eq_refl) as (_ & _ & H & _).
  apply H; simpl; lia.
Defined.

Lemma connect_steps_witness :
  let x := run scripted (socket_impl_.connect gai_strerror_gnu (T := tcp_client)
                           "localhost" 1234 socket_impl_.ctor)
               [resolved [candidate_a; candidate_b]; success 3; failure 111] in
  x = ({| base := {| fd_ := 3 |}; res0_ := [candidate_a; candidate_b] |},
       Throw {| what := "Connection failed: 111" |}, [],
       [sys_getaddrinfo "localhost" "1234"
          {| ai_flags := AI_PASSIVE; ai_family := PF_INET;
             ai_socktype := SOCK_STREAM; ai_protocol := IPPROTO_TCP;
             ai_addrlen := 0; ai_addr := [] |};
        sys_socket PF_INET SOCK_STREAM IPPROTO_TCP;
        sys_connect 3 (ai_addr candidate_a) 16]).
Proof.
  intros x.
  destruct (connect_steps gai_strerror_gnu scripted tcp_client
              [resolved [candidate_a; candidate_b]; success 3; failure 111]
              socket_impl_.ctor "localhost" 1234) as (_ & H).
  - left. reflexivity.
  - simpl. lia.
  - destruct (H eq_refl candidate_a [candidate_b] eq_refl) as (_ & H2).
    destruct H2 as (H2 & _); [simpl; lia |]. exact H2.
Defined.

Lemma connect_failure_states_witness :
  let x := run scripted (socket_impl_.connect gai_strerror_gnu (T := tcp_server)
                           "localhost" 1234 socket_impl_.ctor)
               [resolved [candidate_a]; success 3; success 0; failure 98] in
  result_of x = Throw {| what := "Could not bind to socket: 98" |} ∧
  fd_ (base (memory_of x)) = 3 ∧
  run scripted (socket_impl_.connect gai_strerror_gnu (T := tcp_server)
                  "localhost" 1234 (memory_of x)) [resolved [candidate_a]; success 4]
  = (memory_of x, Throw {| what := "Socket already exists." |},
     [resolved [candidate_a]; success 4], []).
Proof.
  intros x.
  destruct (connect_failure_states gai_strerror_gnu scripted tcp_server
              [resolved [candidate_a]; success 3; success 0; failure 98]
              socket_impl_.ctor "localhost" 1234) as (_ & H).
  - right. reflexivity.
  - simpl. lia.
  - destruct (H eq_refl candidate_a [] eq_refl) as (_ & H2).
    destruct (H2 ltac:(simpl; lia) {| what := "Could not bind to socket: 98" |}
                 eq_refl) as (Hr & Hfd & Hnext).
    split; [exact Hr |]. split; [exact Hfd |].
    apply Hnext. simpl. lia.
Defined.

(** Copies of handles without a valid descriptor, wraps of descriptors no
    live handle holds and wraps of a descriptor whose holder was destroyed
    are exclusive; the copy of a handle that holds descriptor 3 is not. *)
Example exclusive_sequences :
  exclusive_ops [] [op_construct; op_copy 0; op_wrap 3; op_wrap 4; op_destroy 2;
                    op_wrap 3] ∧
  ¬ exclusive_ops [] [op_construct; op_wrap 3; op_copy 1] ∧
  ¬ exclusive_ops [] [op_wrap 3; op_wrap 3].
Proof.
  split; [| split].
  - cbn. repeat split; (lia || (intros _; reflexivity)).
  - cbn. intros (_ & _ & H & _). lia.
  - cbn. intros (_ & H & _). specialize (H ltac:(lia)). discriminate H.
Qed.

(** The three failures of [connect] on a fresh handle, one after the other:
    resolution fails and the handle stays as constructed; the next [connect]
    resolves, and descriptor creation fails with [EMFILE]: the handle holds
    -1; [write] on it reaches [send]. *)
Example connect_retry_after_failures :
  let x := run scripted (socket_impl_.connect gai_strerror_gnu (T := tcp_client)
                           "nowhere" 80 socket_impl_.ctor)
               [{| ret := -2; errno := 0; r_data := []; r_addrs := [] |}] in
  let y := run scripted (socket_impl_.connect gai_strerror_gnu (T := tcp_client)
                           "localhost" 80 (memory_of x))
               [resolved [candidate_a]; failure 24] in
  let z := run scripted (socket_.write (base (memory_of y)) (bytes "GET /") 5 tt)
               [failure EBADF] in
  result_of x
  = Throw {| what := "Could not resolve address: (-2) Name or service not known" |}
  ∧ memory_of x = socket_impl_.ctor
  ∧ result_of y = Throw {| what := "Could not create socket: 24" |}
  ∧ fd_ (base (memory_of y)) = -1
  ∧ result_of z = Throw {| what := "Error writing to connected host: 9" |}
  ∧ trace_of z = [sys_send (-1) (bytes "GET /") 5 0].
Proof. vm_compute. repeat split. Qed.

(** A server set up without failure, and a client connecting to it. *)
Example connect_succeeds :
  let x := run scripted (socket_impl_.connect gai_strerror_gnu (T := tcp_server)
                           "localhost" 1234 socket_impl_.ctor)
               [resolved [candidate_a; candidate_b]; success 3; success 0;
                success 0; success 0] in
  let y := run scripted (socket_impl_.connect gai_strerror_gnu (T := tcp_client)
                           "localhost" 1234 socket_impl_.ctor)
               [resolved [candidate_a; candidate_b]; success 5; success 0] in
  result_of x = Return tt ∧
  trace_of x = resolve_call tcp_traits "localhost" 1234
               :: create_call candidate_a :: server_calls 3 candidate_a ∧
  result_of y = Return tt ∧
  trace_of y = [resolve_call tcp_traits "localhost" 1234; create_call candidate_a;
                sys_connect 5 (ai_addr candidate_a) 16].
Proof. vm_compute. repeat split. Qed.

(** Nothing queued: the peek yields no byte and [read_line] returns the
    empty string. One line queued behind another: each [read_line] returns
    one line, in the order they were written. *)
Example read_line_on_queues :
  let x := run stream_os (socket_.read_line {| fd_ := 4 |} zero_buffer)
               connected_pair in
  let w1 := world_of (run stream_os (socket_.write_line {| fd_ := 3 |} (bytes "foo") tt)
                        connected_pair) in
  let w2 := world_of (run stream_os (socket_.write_line {| fd_ := 3 |} (bytes "bar") tt)
                        w1) in
  let y := run stream_os (socket_.read_line {| fd_ := 4 |} zero_buffer) w2 in
  let z := run stream_os (socket_.read_line {| fd_ := 4 |} (memory_of y)) (world_of y) in
  result_of x = Return [] ∧ trace_of x = [sys_recv 4 4096 MSG_PEEK] ∧
  result_of y = Return (bytes "foo") ∧ result_of z = Return (bytes "bar").
Proof. vm_compute. repeat split. Qed.

(** Lines that end in a single LF, as a peer that does not send CR writes
    them: [read_line] takes the first line, the second one and both markers,
    and returns the first line, its LF and the second line short of its last
    byte. *)
Example read_line_lf_only :
  let w := {| rx := {[ 4 := bytes "ab" ++ [LF] ++ bytes "cd" ++ [LF] ]};
              peer := ∅; room := 0 |} in
  let x := run stream_os (socket_.read_line {| fd_ := 4 |} zero_buffer) w in
  result_of x = Return (bytes "ab" ++ [LF] ++ bytes "c") ∧
  rx (world_of x) !! 4 = Some [].
Proof. vm_compute. repeat split. Qed.


(** * Further properties *)

(** ** Counting markers *)

Lemma count_eol_nonneg (l : list ascii) : 0 ≤ count_eol l.
Proof. induction l as [| c l IH]; cbn; [lia |]. destruct (socket_.is_eol c); lia. Qed.

Lemma count_eol_app (l1 l2 : list ascii) :
  count_eol (l1 ++ l2) = count_eol l1 + count_eol l2.
Proof. induction l1 as [| c l1 IH]; cbn; [done |]. rewrite IH. lia. Qed.

Lemma count_eol_none (l : list ascii) :
  Forall (λ c, socket_.is_eol c = false) l → count_eol l = 0.
Proof. induction 1 as [| c l Hc _ IH]; cbn; [done |]. rewrite Hc, IH. done. Qed.

Lemma count_eol_take (n : nat) (l : list ascii) : count_eol (take n l) ≤ count_eol l.
Proof.
  revert n. induction l as [| c l IH]; intros [| n]; cbn; try lia.
  - pose proof (count_eol_nonneg l). destruct (socket_.is_eol c); lia.
  - specialize (IH n). lia.
Qed.

(** ** [write], [read] and [read_line] on stream sockets *)

(** [write] on a connected stream socket: [send] takes the front of the
    buffer, as far as [length] and the window allow, and [write] returns
    that count. *)
Lemma write_stream (w : world) (a b : Z) (buffer q : list ascii) (len : Z) :
  a ≠ 0 → peer w !! a = Some b → rx w !! b = Some q →
  Z.of_nat (length (take (Z.to_nat (Z.min len (room w))) buffer)) < 2 ^ 32 →
  run stream_os (socket_.write {| fd_ := a |} buffer len tt) w =
  (tt, Return (Z.of_nat (length (take (Z.to_nat (Z.min len (room w))) buffer))),
   {| rx := <[b := q ++ take (Z.to_nat (Z.min len (room w))) buffer]> (rx w);
      peer := peer w; room := room w |},
   [sys_send a buffer len 0]).
Proof.
  intros Ha Hpeer Hrx Hsmall. rewrite write_run by done.
  cbn [fd_ stream_os]. rewrite Hpeer, Hrx.
  cbn [fst snd ret errno success default].
  set (n := Z.of_nat _) in *.
  assert (E : (n <? 0) = false) by (apply Z.ltb_ge; lia).
  rewrite E. unfold to_unsigned. rewrite Z.mod_small by lia. reflexivity.
Qed.

(** [read] on a stream socket: the front of the queue goes to the buffer,
    and leaves the queue unless [peek] is set. *)
Lemma read_stream (w : world) (fd len : Z) (peek : bool) (buffer q : list ascii) :
  rx w !! fd = Some q → len < 2 ^ 32 →
  run stream_os (socket_.read {| fd_ := fd |} len peek buffer) w =
  (socket_.store buffer (take (Z.to_nat len) q),
   Return (Z.of_nat (length (take (Z.to_nat len) q))),
   if peek then w
   else {| rx := <[fd := drop (Z.to_nat len) q]> (rx w); peer := peer w;
           room := room w |},
   [sys_recv fd len (if peek then MSG_PEEK else 0)]).
Proof.
  intros Hq Hlen. unfold socket_.read. rewrite run_call. cbn [fd_].
  rewrite (stream_recv w fd len _ q Hq). cbn [fst snd ret errno r_data].
  set (n := Z.of_nat _).
  assert (Hn : 0 ≤ n < 2 ^ 32).
  { subst n. rewrite length_take. lia. }
  assert (E : (n <? 0) = false) by (apply Z.ltb_ge; lia).
  rewrite E. run_os. unfold to_unsigned. rewrite Z.mod_small by lia.
  by destruct peek.
Qed.

(** [read_line] on a stream socket whose queue is not empty and holds fewer
    than two markers among its first 4096 bytes: the error, and the queue as
    it was. *)
Lemma read_line_stream_no_line (w : world) (fd : Z) (buffer q : list ascii) :
  rx w !! fd = Some q → q ≠ [] → count_eol (take 4096 q) < 2 →
  run stream_os (socket_.read_line {| fd_ := fd |} buffer) w =
  (socket_.store buffer (take 4096 q),
   Throw {| what := "Line not found: " +:+ show_int (count_eol (take 4096 q)) |},
   w, [sys_recv fd 4096 MSG_PEEK]).
Proof.
  intros Hq Hne Hcount.
  rewrite read_line_run. cbv zeta. cbn [fd_].
  change socket_.BUFFER_SIZE with 4096.
  rewrite (stream_recv w fd 4096 MSG_PEEK q Hq).
  change (Z.to_nat 4096) with 4096%nat.
  cbn [fst snd ret r_data errno]. change (Z.land MSG_PEEK MSG_PEEK =? 0) with false.
  cbn match.
  set (window := take 4096 q) in *.
  assert (Hwin : 0 < Z.of_nat (length window) ≤ 4096).
  { subst window. rewrite length_take. destruct q; [done |]. cbn [length]. lia. }
  assert (Hu : to_unsigned (Z.of_nat (length window)) = Z.of_nat (length window))
    by (unfold to_unsigned; apply Z.mod_small; lia).
  rewrite Hu, Nat2Z.id, take_store.
  pose proof (scan_eol_found window 0 0 ltac:(lia)) as Hf.
  pose proof (count_eol_nonneg window) as Hnn.
  assert (Hlt : (socket_.scan_eol window 0 0).2 < 2) by lia.
  pose proof (scan_eol_exhausts window 0 0 Hlt) as Hp.
  rewrite Hp, Z.add_0_l, Z.ltb_irrefl. cbn [andb].
  assert (E1 : (Z.of_nat (length window) <? 0) = false) by (apply Z.ltb_ge; lia).
  assert (E2 : (0 <? Z.of_nat (length window)) = true) by (apply Z.ltb_lt; lia).
  apply Z.ltb_lt in Hlt. rewrite E1, E2, Hlt, Hf.
  replace (Z.min 2 (0 + count_eol window)) with (count_eol window) by lia.
  reflexivity.
Qed.

(** [write_line] on a connected stream socket whose window takes the framed
    line whole. *)
Lemma write_line_stream (w : world) (a b : Z) (X q : list ascii) :
  0 < a → peer w !! a = Some b → rx w !! b = Some q →
  Z.of_nat (length X) + 2 ≤ room w → Z.of_nat (length X) + 2 < 2 ^ 32 →
  run stream_os (socket_.write_line {| fd_ := a |} X tt) w =
  (tt, Return (Z.of_nat (length X) + 2),
   {| rx := <[b := q ++ X ++ [CR; LF]]> (rx w); peer := peer w; room := room w |},
   [sys_send a (X ++ [CR; LF]) (Z.of_nat (length (X ++ [CR; LF]))) 0]).
Proof.
  intros Ha Hpeer Hrx Hroom Hsmall. unfold socket_.write_line.
  assert (Hl : Z.of_nat (length (X ++ [CR; LF])) = Z.of_nat (length X) + 2)
    by (rewrite length_app; cbn [length]; lia).
  assert (Hfull : take (Z.to_nat (Z.min (Z.of_nat (length (X ++ [CR; LF]))) (room w)))
                    (X ++ [CR; LF]) = X ++ [CR; LF]) by (apply take_ge; lia).
  rewrite (write_stream w a b _ q _ ltac:(lia) Hpeer Hrx); rewrite Hfull.
  - by rewrite Hl.
  - lia.
Qed.

(** X1. Two lines written one after the other are read by the peer as two
    lines, in the order they were written, and the queue is empty after the
    second [read_line]. Neither line holds a marker, each fits the window
    with its CRLF, the peer's queue is empty beforehand and [send] takes each
    framed line whole. *)
Theorem two_lines_in_order (w : world) (a b : Z) (X Y buffer : list ascii) :
  0 < a → peer w !! a = Some b → rx w !! b = Some [] →
  Forall (λ c, socket_.is_eol c = false) X →
  Forall (λ c, socket_.is_eol c = false) Y →
  Z.of_nat (length X) + 2 ≤ Z.min 4096 (room w) →
  Z.of_nat (length Y) + 2 ≤ Z.min 4096 (room w) →
  let w1 := world_of (run stream_os (socket_.write_line {| fd_ := a |} X tt) w) in
  let w2 := world_of (run stream_os (socket_.write_line {| fd_ := a |} Y tt) w1) in
  let y := run stream_os (socket_.read_line {| fd_ := b |} buffer) w2 in
  let z := run stream_os (socket_.read_line {| fd_ := b |} (memory_of y)) (world_of y) in
  result_of y = Return X ∧ result_of z = Return Y ∧ rx (world_of z) !! b = Some [].
Proof.
  intros Ha Hpeer Hrx HX HY HlX HlY w1 w2 y z.
  assert (Hw1 : w1 = {| rx := <[b := X ++ [CR; LF]]> (rx w); peer := peer w;
                        room := room w |}).
  { subst w1. by rewrite (write_line_stream w a b X [] Ha Hpeer Hrx) by lia. }
  assert (Hw2 : w2 = {| rx := <[b := (X ++ [CR; LF]) ++ Y ++ [CR; LF]]> (rx w);
                        peer := peer w; room := room w |}).
  { subst w2. clearbody w1. subst w1.
    rewrite (write_line_stream
               {| rx := <[b := X ++ [CR; LF]]> (rx w); peer := peer w;
                  room := room w |} a b Y (X ++ [CR; LF]) Ha Hpeer) by
      (first [apply lookup_insert_eq | cbn [room]; lia]).
    cbn [world_of fst snd rx peer room]. by rewrite insert_insert_eq. }
  clearbody w2. subst w2.
  destruct (read_line_adjacent_markers
              {| rx := <[b := (X ++ [CR; LF]) ++ Y ++ [CR; LF]]> (rx w);
                 peer := peer w; room := room w |}
              b buffer X (Y ++ [CR; LF]) CR LF)
    as [Hy Hqy]; try done; [| lia |].
  { cbn [rx]. rewrite lookup_insert_eq, <- app_assoc. done. }
  fold y in Hy, Hqy.
  destruct (read_line_adjacent_markers (world_of y) b (memory_of y) Y [] CR LF)
    as [Hz Hqz]; try done; lia.
Qed.

Lemma two_lines_in_order_witness :
  let w1 := world_of (run stream_os (socket_.write_line {| fd_ := 3 |} (bytes "GET /") tt)
                        connected_pair) in
  let w2 := world_of (run stream_os (socket_.write_line {| fd_ := 3 |} (bytes "Host: x") tt)
                        w1) in
  let y := run stream_os (socket_.read_line {| fd_ := 4 |} zero_buffer) w2 in
  let z := run stream_os (socket_.read_line {| fd_ := 4 |} (memory_of y)) (world_of y) in
  result_of y = Return (bytes "GET /") ∧ result_of z = Return (bytes "Host: x")
  ∧ rx (world_of z) !! 4 = Some [].
Proof.
  apply (two_lines_in_order connected_pair 3 4 (bytes "GET /") (bytes "Host: x")
           zero_buffer).
  - lia.
  - reflexivity.
  - reflexivity.
  - repeat constructor.
  - repeat constructor.
  - vm_compute. discriminate.
  - vm_compute. discriminate.
Defined.

(** X2. A queue whose first 4096 bytes hold fewer than two markers blocks
    [read_line] for good: whatever arrives behind those bytes, [read_line]
    raises "Line not found" and leaves the queue as it is, so the next call
    meets the same queue. *)
Theorem line_beyond_window_blocks (w : world) (fd : Z)
    (buffer q more : list ascii) :
  rx w !! fd = Some (q ++ more) →
  (4096 ≤ length q)%nat → count_eol (take 4096 q) < 2 →
  let x := run stream_os (socket_.read_line {| fd_ := fd |} buffer) w in
  result_of x = Throw {| what := "Line not found: "
                                   +:+ show_int (count_eol (take 4096 q)) |}
  ∧ world_of x = w ∧ trace_of x = [sys_recv fd 4096 MSG_PEEK].
Proof.
  intros Hq Hlen Hcount x. subst x.
  assert (Htake : take 4096 (q ++ more) = take 4096 q) by (by apply take_app_le).
  rewrite (read_line_stream_no_line w fd buffer (q ++ more) Hq).
  - by rewrite Htake.
  - destruct q; [cbn in Hlen; lia | done].
  - by rewrite Htake.
Qed.

Lemma line_beyond_window_blocks_witness :
  let q := replicate 4095 "x"%char ++ [CR] in
  let w := {| rx := {[ 4 := q ++ [LF] ++ bytes "next" ++ [CR; LF] ]}; peer := ∅;
              room := 0 |} in
  let x := run stream_os (socket_.read_line {| fd_ := 4 |} zero_buffer) w in
  result_of x = Throw {| what := "Line not found: "
                                   +:+ show_int (count_eol (take 4096 q)) |}
  ∧ world_of x = w ∧ trace_of x = [sys_recv 4 4096 MSG_PEEK].
Proof.
  intros q w.
  apply (line_beyond_window_blocks w 4 zero_buffer q
           ([LF] ++ bytes "next" ++ [CR; LF])).
  - reflexivity.
  - vm_compute. lia.
  - vm_compute. reflexivity.
Defined.

(** X3. [write_line] does not look at the count [send] returns. For a
    line that fits the window of [read_line]: when [send] takes some but not
    all bytes of the framed line, [write_line] returns that short count after
    its one [send], the line reaches the peer without its full CRLF, and the
    peer's [read_line] raises "Line not found" and leaves the fragment
    queued. *)
Theorem short_send_cuts_terminator (w : world) (a b : Z) (X buffer : list ascii) :
  0 < a → peer w !! a = Some b → rx w !! b = Some [] →
  Forall (λ c, socket_.is_eol c = false) X →
  Z.of_nat (length X) + 2 ≤ 4096 →
  0 < room w < Z.of_nat (length X) + 2 →
  let x := run stream_os (socket_.write_line {| fd_ := a |} X tt) w in
  let y := run stream_os (socket_.read_line {| fd_ := b |} buffer) (world_of x) in
  result_of x = Return (room w) ∧
  trace_of x = [sys_send a (X ++ [CR; LF]) (Z.of_nat (length X) + 2) 0] ∧
  result_of y = Throw {| what := "Line not found: "
        +:+ show_int (if room w =? Z.of_nat (length X) + 1 then 1 else 0) |} ∧
  rx (world_of y) !! b = Some (take (Z.to_nat (room w)) (X ++ [CR; LF])).
Proof.
  intros Ha Hpeer Hrx HX Hfit Hroom x y.
  assert (Hl : Z.of_nat (length (X ++ [CR; LF])) = Z.of_nat (length X) + 2)
    by (rewrite length_app; cbn [length]; lia).
  set (sent := take (Z.to_nat (room w)) (X ++ [CR; LF])).
  assert (Hsent : Z.of_nat (length sent) = room w).
  { subst sent. rewrite length_take. lia. }
  assert (Hx : x = (tt, Return (room w),
                    {| rx := <[b := sent]> (rx w); peer := peer w; room := room w |},
                    [sys_send a (X ++ [CR; LF]) (Z.of_nat (length X) + 2) 0])).
  { subst x. unfold socket_.write_line.
    rewrite (write_stream w a b _ [] _ ltac:(lia) Hpeer Hrx);
      rewrite Hl, Z.min_r by lia; fold sent; rewrite Hsent; [done | lia]. }
  assert (Hcount : count_eol sent
                   = if room w =? Z.of_nat (length X) + 1 then 1 else 0).
  { pose proof (count_eol_nonneg sent) as Hnn.
    destruct (Z.eqb_spec (room w) (Z.of_nat (length X) + 1)) as [E | E].
    - subst sent. replace (Z.to_nat (room w)) with (length X + 1)%nat by lia.
      rewrite take_app, (take_ge X) by lia.
      replace (length X + 1 - length X)%nat with 1%nat by lia.
      cbn [take]. rewrite count_eol_app, (count_eol_none X HX). done.
    - subst sent. rewrite take_app_le in Hnn |- * by lia.
      pose proof (count_eol_take (Z.to_nat (room w)) X) as Hle.
      rewrite (count_eol_none X HX) in Hle. lia. }
  assert (Hwin : take 4096 sent = sent) by (apply take_ge; lia).
  subst y. rewrite Hx. cbn [result_of world_of trace_of fst snd].
  split; [done |]. split; [done |].
  rewrite (read_line_stream_no_line _ b buffer sent).
  - cbn [result_of world_of fst snd rx].
    by rewrite lookup_insert_eq, Hwin, Hcount.
  - cbn [rx]. apply lookup_insert_eq.
  - intros E. rewrite E in Hsent. cbn in Hsent. lia.
  - rewrite Hwin, Hcount. destruct (room w =? _); lia.
Qed.

Lemma short_send_cuts_terminator_witness :
  let w := {| rx := {[ 3 := []; 4 := [] ]}; peer := {[ 3 := 4; 4 := 3 ]};
              room := 7 |} in
  let x := run stream_os (socket_.write_line {| fd_ := 3 |} (bytes "foobar") tt) w in
  let y := run stream_os (socket_.read_line {| fd_ := 4 |} zero_buffer) (world_of x) in
  result_of x = Return 7 ∧
  trace_of x = [sys_send 3 (bytes "foobar" ++ [CR; LF])
                  (Z.of_nat (length (bytes "foobar")) + 2) 0] ∧
  result_of y = Throw {| what := "Line not found: "
        +:+ show_int (if 7 =? Z.of_nat (length (bytes "foobar")) + 1 then 1 else 0) |} ∧
  rx (world_of y) !! 4 = Some (take (Z.to_nat 7) (bytes "foobar" ++ [CR; LF])).
Proof.
  intros w.
  apply (short_send_cuts_terminator w 3 4 (bytes "foobar") zero_buffer).
  - lia.
  - reflexivity.
  - reflexivity.
  - repeat constructor.
  - vm_compute. discriminate.
  - vm_compute. split; reflexivity.
Defined.

(** X4. Raw bytes make the round trip, markers and zero bytes included:
    after [write] of [data] on one end, with the peer's queue empty
    beforehand and [send] taking all of it, [read] of at most [m] bytes on the
    peer returns the count of the first [m] bytes of [data], stores them at
    the front of the buffer and leaves the rest of [data] queued. *)
Theorem write_read_roundtrip (w : world) (a b m : Z) (data buffer : list ascii) :
  0 < a → peer w !! a = Some b → rx w !! b = Some [] →
  Z.of_nat (length data) ≤ room w → Z.of_nat (length data) < 2 ^ 32 →
  0 ≤ m < 2 ^ 32 →
  let x := run stream_os
             (socket_.write {| fd_ := a |} data (Z.of_nat (length data)) tt) w in
  let y := run stream_os (socket_.read {| fd_ := b |} m false buffer) (world_of x) in
  result_of x = Return (Z.of_nat (length data)) ∧
  result_of y = Return (Z.min m (Z.of_nat (length data))) ∧
  memory_of y = take (Z.to_nat m) data
                ++ drop (length (take (Z.to_nat m) data)) buffer ∧
  rx (world_of y) !! b = Some (drop (Z.to_nat m) data).
Proof.
  intros Ha Hpeer Hrx Hroom Hsmall Hm x y.
  assert (Hfull : take (Z.to_nat (Z.min (Z.of_nat (length data)) (room w))) data = data)
    by (apply take_ge; lia).
  assert (Hx : x = (tt, Return (Z.of_nat (length data)),
                    {| rx := <[b := data]> (rx w); peer := peer w; room := room w |},
                    [sys_send a data (Z.of_nat (length data)) 0])).
  { subst x. rewrite (write_stream w a b _ [] _ ltac:(lia) Hpeer Hrx);
      rewrite Hfull; [done | lia]. }
  subst y. rewrite Hx. cbn [result_of world_of fst snd].
  split; [done |].
  rewrite (read_stream _ b m false buffer data) by
    (first [apply lookup_insert_eq | lia]).
  cbn [result_of memory_of world_of fst snd rx].
  rewrite lookup_insert_eq. split; [| done].
  rewrite length_take. f_equal. lia.
Qed.

Lemma write_read_roundtrip_witness :
  let data := bytes "a" ++ [CR; LF; zero] ++ bytes "b" in
  let x := run stream_os
             (socket_.write {| fd_ := 3 |} data (Z.of_nat (length data)) tt)
             connected_pair in
  let y := run stream_os (socket_.read {| fd_ := 4 |} 3 false zero_buffer) (world_of x) in
  result_of x = Return (Z.of_nat (length data)) ∧
  result_of y = Return (Z.min 3 (Z.of_nat (length data))) ∧
  memory_of y = take (Z.to_nat 3) data
                ++ drop (length (take (Z.to_nat 3) data)) zero_buffer ∧
  rx (world_of y) !! 4 = Some (drop (Z.to_nat 3) data).
Proof.
  intros data.
  apply (write_read_roundtrip connected_pair 3 4 3 data zero_buffer).
  - lia.
  - reflexivity.
  - reflexivity.
  - vm_compute. discriminate.
  - vm_compute. reflexivity.
  - lia.
Defined.

(** X5. [read] with [peek] set shows what the next [read] without it takes:
    the peek leaves the queue as it is, and a [read] of the same length right
    after it returns the same count, leaves the same bytes in the buffer and
    removes them from the queue. *)
Theorem peek_then_read (w : world) (fd m : Z) (q buffer : list ascii) :
  rx w !! fd = Some q → m < 2 ^ 32 →
  let y := run stream_os (socket_.read {| fd_ := fd |} m true buffer) w in
  let z := run stream_os (socket_.read {| fd_ := fd |} m false (memory_of y))
               (world_of y) in
  world_of y = w ∧ result_of z = result_of y ∧ memory_of z = memory_of y ∧
  rx (world_of z) !! fd = Some (drop (Z.to_nat m) q).
Proof.
  intros Hq Hm y z. subst z y.
  rewrite (read_stream w fd m true buffer q Hq Hm).
  cbn [result_of memory_of world_of fst snd].
  rewrite (read_stream w fd m false _ q Hq Hm).
  cbn [result_of memory_of world_of fst snd rx].
  rewrite lookup_insert_eq. repeat split; try done.
  unfold socket_.store. by rewrite drop_app_length.
Qed.

Lemma peek_then_read_witness :
  let w := {| rx := {[ 4 := bytes "foobar" ]}; peer := ∅; room := 0 |} in
  let y := run stream_os (socket_.read {| fd_ := 4 |} 4 true zero_buffer) w in
  let z := run stream_os (socket_.read {| fd_ := 4 |} 4 false (memory_of y))
               (world_of y) in
  world_of y = w ∧ result_of z = result_of y ∧ memory_of z = memory_of y ∧
  rx (world_of z) !! 4 = Some (drop (Z.to_nat 4) (bytes "foobar")).
Proof.
  intros w.
  apply (peek_then_read w 4 4 (bytes "foobar") zero_buffer).
  - reflexivity.
  - lia.
Defined.

(** X6. A [read_line] that raised "Line not found" has lost nothing. A line
    arrives without its terminator: [read_line] raises and leaves the queue
    as it is; once the CRLF has arrived, [read_line] returns the whole
    line. *)
Theorem failed_read_line_loses_nothing (w : world) (a b : Z)
    (X buffer : list ascii) :
  0 < a → peer w !! a = Some b → rx w !! b = Some [] →
  Forall (λ c, socket_.is_eol c = false) X → X ≠ [] →
  Z.of_nat (length X) + 2 ≤ Z.min 4096 (room w) →
  let w1 := world_of (run stream_os
                        (socket_.write {| fd_ := a |} X (Z.of_nat (length X)) tt) w) in
  let y := run stream_os (socket_.read_line {| fd_ := b |} buffer) w1 in
  let w2 := world_of (run stream_os (socket_.write_line {| fd_ := a |} [] tt)
                        (world_of y)) in
  let z := run stream_os (socket_.read_line {| fd_ := b |} (memory_of y)) w2 in
  result_of y = Throw {| what := "Line not found: 0" |} ∧ world_of y = w1 ∧
  result_of z = Return X ∧ rx (world_of z) !! b = Some [].
Proof.
  intros Ha Hpeer Hrx HX Hne Hlen w1 y w2 z.
  assert (Hfull : take (Z.to_nat (Z.min (Z.of_nat (length X)) (room w))) X = X)
    by (apply take_ge; lia).
  assert (Hw1 : w1 = {| rx := <[b := X]> (rx w); peer := peer w; room := room w |}).
  { subst w1. rewrite (write_stream w a b _ [] _ ltac:(lia) Hpeer Hrx);
      rewrite Hfull; [done | lia]. }
  clearbody w1. subst w1.
  assert (Hwin : take 4096 X = X) by (apply take_ge; lia).
  assert (Hy : y = (socket_.store buffer X,
                    Throw {| what := "Line not found: 0" |},
                    {| rx := <[b := X]> (rx w); peer := peer w; room := room w |},
                    [sys_recv b 4096 MSG_PEEK])).
  { subst y. rewrite (read_line_stream_no_line _ b buffer X);
      rewrite ?Hwin, ?(count_eol_none X HX); first [done | apply lookup_insert_eq]. }
  assert (Hw2 : w2 = {| rx := <[b := X ++ [CR; LF]]> (rx w); peer := peer w;
                        room := room w |}).
  { subst w2. rewrite Hy. cbn [world_of fst snd].
    rewrite (write_line_stream
               {| rx := <[b := X]> (rx w); peer := peer w; room := room w |}
               a b [] X Ha Hpeer) by
      (first [apply lookup_insert_eq | cbn [room length]; lia]).
    cbn [world_of fst snd rx peer room app]. by rewrite insert_insert_eq. }
  clearbody w2. subst w2.
  split; [by rewrite Hy |]. split; [by rewrite Hy |].
  destruct (read_line_adjacent_markers
              {| rx := <[b := X ++ [CR; LF]]> (rx w); peer := peer w; room := room w |}
              b (memory_of y) X [] CR LF) as [Hz Hqz]; try done; [| lia].
  cbn [rx]. apply lookup_insert_eq.
Qed.

Lemma failed_read_line_loses_nothing_witness :
  let X := bytes "foobar" in
  let w1 := world_of (run stream_os
                        (socket_.write {| fd_ := 3 |} X (Z.of_nat (length X)) tt)
                        connected_pair) in
  let y := run stream_os (socket_.read_line {| fd_ := 4 |} zero_buffer) w1 in
  let w2 := world_of (run stream_os (socket_.write_line {| fd_ := 3 |} [] tt)
                        (world_of y)) in
  let z := run stream_os (socket_.read_line {| fd_ := 4 |} (memory_of y)) w2 in
  result_of y = Throw {| what := "Line not found: 0" |} ∧ world_of y = w1 ∧
  result_of z = Return X ∧ rx (world_of z) !! 4 = Some [].
Proof.
  intros X.
  apply (failed_read_line_loses_nothing connected_pair 3 4 X zero_buffer).
  - lia.
  - reflexivity.
  - reflexivity.
  - repeat constructor.
  - discriminate.
  - vm_compute. discriminate.
Defined.

(** X7. [read_line] has no check for a handle that is not connected: on a
    default-constructed handle it reads from descriptor 0. When descriptor 0
    is a stream socket with a line queued, [read_line] returns that line,
    while [write_line] on the same handle raises "Not connected" and issues
    no call. *)
Theorem unconnected_handle_reads_descriptor_zero (w : world)
    (buffer line rest : list ascii) (m1 m2 : ascii) :
  rx w !! 0 = Some (line ++ m1 :: m2 :: rest) →
  Forall (λ c, socket_.is_eol c = false) line →
  socket_.is_eol m1 = true → socket_.is_eol m2 = true →
  Z.of_nat (length line) + 2 ≤ 4096 →
  let x := run stream_os (socket_.read_line socket_.ctor buffer) w in
  result_of x = Return line ∧ rx (world_of x) !! 0 = Some rest ∧
  run stream_os (socket_.write_line socket_.ctor line tt) w
  = (tt, Throw {| what := "Not connected" |}, w, []).
Proof.
  intros Hq Hline H1 H2 Hlen x.
  destruct (read_line_adjacent_markers w 0 buffer line rest m1 m2 Hq Hline H1 H2 Hlen)
    as [Hr Hw].
  split; [exact Hr |]. split; [exact Hw | reflexivity].
Qed.

Lemma unconnected_handle_reads_descriptor_zero_witness :
  let w := {| rx := {[ 0 := bytes "QUIT" ++ [CR; LF] ]}; peer := {[ 0 := 7 ]};
              room := 4096 |} in
  let x := run stream_os (socket_.read_line socket_.ctor zero_buffer) w in
  result_of x = Return (bytes "QUIT") ∧ rx (world_of x) !! 0 = Some [] ∧
  run stream_os (socket_.write_line socket_.ctor (bytes "QUIT") tt) w
  = (tt, Throw {| what := "Not connected" |}, w, []).
Proof.
  intros w.
  apply (unconnected_handle_reads_descriptor_zero w zero_buffer (bytes "QUIT") [] CR LF).
  - reflexivity.
  - repeat constructor.
  - reflexivity.
  - reflexivity.
  - vm_compute. discriminate.
Defined.

(** ** [~socket] *)

(** X8. A copy shares the descriptor and closes it under the original. On
    stream sockets that can be closed: once the copy of a handle with an open
    descriptor is destroyed, [write] on the original raises the error of
    [send] with [EBADF], and the destructor of the original calls [close] on
    the same descriptor again; that [close] fails, and the exception
    "Error closing socket: 9" in the destructor ends the process. *)
Theorem copy_closes_under_original (w : world) (s : socket)
    (q buffer : list ascii) (len : Z) :
  0 < fd_ s → rx w !! fd_ s = Some q →
  let x := run closing_os (socket_.dtor (socket_.ctor_copy s) tt) w in
  let y := run closing_os (socket_.write s buffer len tt) (world_of x) in
  let z := run closing_os (socket_.dtor s tt) (world_of y) in
  result_of x = Return tt ∧ trace_of x = [sys_close (fd_ s)] ∧
  result_of y = Throw {| what := "Error writing to connected host: 9" |} ∧
  result_of z = Terminate {| what := "Error closing socket: 9" |} ∧
  trace_of z = [sys_close (fd_ s)].
Proof.
  intros Hfd Hq x y z.
  assert (Hpos : (0 <? fd_ s) = true) by (by apply Z.ltb_lt).
  set (w1 := {| rx := delete (fd_ s) (rx w); peer := delete (fd_ s) (peer w);
                room := room w |}).
  assert (Hx : x = (tt, Return tt, w1, [sys_close (fd_ s)])).
  { subst x. rewrite dtor_run. cbn [socket_.ctor_copy fd_ closing_os].
    rewrite Hpos, Hq. reflexivity. }
  assert (Hy : y = (tt, Throw {| what := "Error writing to connected host: 9" |},
                    w1, [sys_send (fd_ s) buffer len 0])).
  { subst y. rewrite Hx. cbn [world_of fst snd].
    rewrite write_run by lia. cbn [closing_os stream_os w1 rx peer].
    rewrite !lookup_delete_eq. reflexivity. }
  subst z. rewrite Hy. cbn [world_of fst snd].
  rewrite dtor_run. cbn [closing_os w1 rx]. rewrite Hpos, lookup_delete_eq.
  rewrite Hx. done.
Qed.

Lemma copy_closes_under_original_witness :
  let s := socket_.ctor_fd 3 in
  let x := run closing_os (socket_.dtor (socket_.ctor_copy s) tt) connected_pair in
  let y := run closing_os (socket_.write s (bytes "foobar") 6 tt) (world_of x) in
  let z := run closing_os (socket_.dtor s tt) (world_of y) in
  result_of x = Return tt ∧ trace_of x = [sys_close (fd_ s)] ∧
  result_of y = Throw {| what := "Error writing to connected host: 9" |} ∧
  result_of z = Terminate {| what := "Error closing socket: 9" |} ∧
  trace_of z = [sys_close (fd_ s)].
Proof.
  intros s.
  apply (copy_closes_under_original connected_pair s [] (bytes "foobar") 6).
  - simpl. lia.
  - reflexivity.
Defined.

(** X9. [read_line] counts on its second [recv] to hand over what the peek
    showed. When the peek showed two markers and the second [recv] returns 0
    or 1 byte (another reader of the descriptor took the rest), the length
    [read_length - 2] wraps around as an [unsigned] to more than the 4096
    bytes of the buffer, and the copy to the result string leaves the
    buffer. *)
Theorem read_line_short_second_recv {W} (os : syscall → W → reply * W) (w : W)
    (this : socket) (buffer : list ascii) :
  let c1 := sys_recv (fd_ this) 4096 MSG_PEEK in
  let r1 := (os c1 w).1 in
  let w1 := (os c1 w).2 in
  let c2 := sys_recv (fd_ this) (socket_.scan_eol (r_data r1) 0 0).1 0 in
  let r2 := (os c2 w1).1 in
  let x := run os (socket_.read_line this buffer) w in
  1 ≤ ret r1 ≤ 4096 → Z.of_nat (length (r_data r1)) = ret r1 →
  2 ≤ count_eol (r_data r1) → 0 ≤ ret r2 < 2 →
  result_of x = Undefined ∧ trace_of x = [c1; c2] ∧
  4096 < to_unsigned (to_unsigned (ret r2) - 2).
Proof.
  intros c1 r1 w1 c2 r2 x Hret Hlen Hcount Hr2.
  pose proof (read_line_run os w this buffer) as Hrun. cbv zeta in Hrun.
  change socket_.BUFFER_SIZE with 4096 in Hrun. fold c1 r1 w1 x in Hrun.
  assert (Hu : to_unsigned (ret r1) = ret r1)
    by (unfold to_unsigned; apply Z.mod_small; lia).
  rewrite Hu in Hrun.
  assert (Hw : take (Z.to_nat (ret r1)) (socket_.store buffer (r_data r1))
               = r_data r1).
  { rewrite <- Hlen, Nat2Z.id. apply take_store. }
  rewrite Hw in Hrun. fold c2 r2 in Hrun.
  pose proof (scan_eol_found (r_data r1) 0 0 ltac:(lia)) as Hf.
  assert (Hf2 : ((socket_.scan_eol (r_data r1) 0 0).2 <? 2) = false)
    by (apply Z.ltb_ge; lia).
  assert (E1 : (ret r1 <? 0) = false) by (apply Z.ltb_ge; lia).
  assert (E2 : (0 <? ret r1) = true) by (apply Z.ltb_lt; lia).
  assert (E3 : (ret r2 <? 0) = false) by (apply Z.ltb_ge; lia).
  assert (Hn : 4096 < to_unsigned (to_unsigned (ret r2) - 2)).
  { unfold to_unsigned. rewrite (Z.mod_small (ret r2)) by lia.
    assert (ret r2 = 0 ∨ ret r2 = 1) as [-> | ->] by lia; vm_compute; reflexivity. }
  assert (E4 : (4096 <? to_unsigned (to_unsigned (ret r2) - 2)) = true)
    by (by apply Z.ltb_lt).
  rewrite E1, E2, Hf2, andb_false_r, E3, E4 in Hrun.
  rewrite Hrun. done.
Qed.

Lemma read_line_short_second_recv_witness :
  let peeked := {| ret := 8; errno := 0; r_data := bytes "foobar" ++ [CR; LF];
                   r_addrs := [] |} in
  let taken := {| ret := 1; errno := 0; r_data := bytes "f"; r_addrs := [] |} in
  let x := run scripted (socket_.read_line {| fd_ := 4 |} zero_buffer) [peeked; taken] in
  result_of x = Undefined ∧ trace_of x = [sys_recv 4 4096 MSG_PEEK; sys_recv 4 8 0].
Proof.
  intros peeked taken.
  destruct (read_line_short_second_recv scripted [peeked; taken] {| fd_ := 4 |}
              zero_buffer) as (H1 & H2 & _).
  - vm_compute. split; discriminate.
  - vm_compute. reflexivity.
  - vm_compute. discriminate.
  - vm_compute. split; [discriminate | reflexivity].
  - split; [exact H1 | exact H2].
Defined.

(** ** [connect] and the life of the descriptor *)

Section connector_more.
Variable gai_strerror : Z → string.
Context {W : Type} (os : syscall → W → reply * W).

(** X10. The destructor after [connect]. Of a handle that held no valid
    descriptor when [connect] was called, the destructor closes the
    descriptor that [connect] created when its value is positive, whether the
    finishing step returned or raised, and calls nothing otherwise: not when
    resolution failed, not when descriptor creation failed, and not when
    creation returned descriptor 0, which then stays open. *)
Theorem connect_then_destroy (T : derived) (w w' : W) (this : socket_impl)
    (name : string) (port : Z) :
  client_or_server T → fd_ (base this) ≤ 0 →
  let c1 := resolve_call traits name port in
  let r1 := (os c1 w).1 in
  let w1 := (os c1 w).2 in
  let x := run os (socket_impl_.connect gai_strerror (T := T) name port this) w in
  let d := trace_of (run os (socket_.dtor (base (memory_of x)) tt) w') in
  (ret r1 ≠ 0 → d = []) ∧
  (ret r1 = 0 → ∀ res0 rest, r_addrs r1 = res0 :: rest →
     let r2 := (os (create_call res0) w1).1 in
     (ret r2 ≤ 0 → d = []) ∧ (0 < ret r2 → d = [sys_close (ret r2)])).
Proof.
  intros HT Hfd c1 r1 w1 x d.
  pose proof (connect_run gai_strerror os T w this name port Hfd) as Hrun.
  cbv zeta in Hrun. fold c1 r1 w1 x in Hrun.
  assert (Hd : ∀ s : socket_impl, memory_of x = s →
            d = if 0 <? fd_ (base s) then [sys_close (fd_ (base s))] else []).
  { intros s Hs. subst d. rewrite Hs, dtor_run. by destruct (0 <? fd_ (base s)). }
  split.
  - intros Hr. apply Z.eqb_neq in Hr. rewrite Hr in Hrun. cbn [negb] in Hrun.
    rewrite (Hd this) by (by rewrite Hrun).
    destruct (Z.ltb_spec 0 (fd_ (base this))); [lia | done].
  - intros Hr res0 rest Hres r2.
    rewrite Hr, Hres in Hrun. cbn [negb Z.eqb] in Hrun. fold r2 in Hrun.
    set (this2 := set_fd (set_res0 this (res0 :: rest)) (ret r2)) in *.
    assert (Hm : memory_of x = this2).
    { destruct (ret r2 <? 0); [by rewrite Hrun |].
      destruct (do_connect_first_candidate os T (os (create_call res0) w1).2
                  this2 res0 rest HT eq_refl) as (Hm & _).
      rewrite Hrun. exact Hm. }
    rewrite (Hd this2 Hm). change (fd_ (base this2)) with (ret r2).
    split; intros H2; destruct (Z.ltb_spec 0 (ret r2)); (done || lia).
Qed.

(** X11. Descriptor 0 from [socket]. When descriptor creation returns 0
    (descriptor 0 was free) and the finishing step returns, [connect]
    returns normally, and yet the handle counts as not connected: [write]
    raises "Not connected" and issues no call, and a second [connect] is not
    refused but starts with resolution again. *)
Theorem connect_with_descriptor_zero (T : derived) (w : W) (this : socket_impl)
    (name : string) (port : Z) (res0 : addrinfo) (rest : list addrinfo) :
  client_or_server T → fd_ (base this) ≤ 0 →
  let c1 := resolve_call traits name port in
  let r1 := (os c1 w).1 in
  let w1 := (os c1 w).2 in
  let r2 := (os (create_call res0) w1).1 in
  let w2 := (os (create_call res0) w1).2 in
  let this2 := set_fd (set_res0 this (res0 :: rest)) 0 in
  let x := run os (socket_impl_.connect gai_strerror (T := T) name port this) w in
  ret r1 = 0 → r_addrs r1 = res0 :: rest → ret r2 = 0 →
  result_of (run os (do_connect this2) w2) = Return tt →
  result_of x = Return tt ∧ memory_of x = this2 ∧
  (∀ (w' : W) buffer len,
     run os (socket_.write (base (memory_of x)) buffer len tt) w'
     = (tt, Throw {| what := "Not connected" |}, w', [])) ∧
  (∀ (w' : W) name' port', ∃ t,
     trace_of (run os (socket_impl_.connect gai_strerror (T := T)
                         name' port' (memory_of x)) w')
     = resolve_call traits name' port' :: t).
Proof.
  intros HT Hfd c1 r1 w1 r2 w2 this2 x Hr Hres H2 Hfin.
  pose proof (connect_run gai_strerror os T w this name port Hfd) as Hrun.
  cbv zeta in Hrun. fold c1 r1 w1 x in Hrun.
  rewrite Hr, Hres in Hrun. cbn [negb Z.eqb] in Hrun. fold r2 w2 in Hrun.
  rewrite H2 in Hrun. change (0 <? 0) with false in Hrun. cbn match in Hrun.
  fold this2 in Hrun.
  destruct (do_connect_first_candidate os T w2 this2 res0 rest HT eq_refl)
    as (Hm & _).
  assert (Hx : memory_of x = this2 ∧ result_of x = Return tt).
  { rewrite Hrun. destruct (run os (do_connect this2) w2) as [[[m o] w3] t].
    cbn in Hm, Hfin |- *. by subst. }
  destruct Hx as [Hmx Hrx]. rewrite Hmx.
  split; [done |]. split; [done |]. split.
  - intros w' buffer len. reflexivity.
  - intros w' name' port'.
    apply connect_resolves_first. cbn. lia.
Qed.

(** X12. The trait bundle reaches the operating system through the hints of
    the resolution call and nowhere else. Two clients, or two servers, with
    different bundles that get the same replies issue the same calls after
    the resolution call, end with the same result and leave the same handle:
    the descriptor is created as the resolver's first candidate says, not as
    the bundle says. *)
Theorem traits_only_in_hints (mk : socket_traits → derived)
    (tr1 tr2 : socket_traits) (script : list reply) (this : socket_impl)
    (name : string) (port : Z) :
  mk = client ∨ mk = server → fd_ (base this) ≤ 0 →
  let x1 := run scripted (socket_impl_.connect gai_strerror (T := mk tr1)
                            name port this) script in
  let x2 := run scripted (socket_impl_.connect gai_strerror (T := mk tr2)
                            name port this) script in
  head (trace_of x1) = Some (resolve_call tr1 name port) ∧
  head (trace_of x2) = Some (resolve_call tr2 name port) ∧
  tail (trace_of x1) = tail (trace_of x2) ∧
  result_of x1 = result_of x2 ∧ memory_of x1 = memory_of x2 ∧
  world_of x1 = world_of x2.
Proof.
  intros Hmk Hfd x1 x2. subst x1 x2.
  assert (HT : ∀ tr, client_or_server (mk tr) ∧ @traits (mk tr) = tr
                     ∧ @do_connect (mk tr) = @do_connect (mk tr1)).
  { intros tr. destruct Hmk as [-> | ->]; repeat split; (by left) || (by right). }
  rewrite !(connect_run gai_strerror scripted _ script this name port Hfd).
  cbv zeta.
  destruct (HT tr1) as (_ & -> & _). destruct (HT tr2) as (_ & -> & ->).
  assert (Hs : ∀ c c', scripted c script = scripted c' script) by done.
  rewrite !(Hs (resolve_call tr2 name port) (resolve_call tr1 name port)).
  destruct (scripted (resolve_call tr1 name port) script) as [r1 script1].
  cbn [fst snd].
  destruct (negb (ret r1 =? 0)); [done |].
  destruct (r_addrs r1) as [| res0 rest]; [done |].
  destruct (ret (scripted (create_call res0) script1).1 <? 0); done.
Qed.

(** X13. The client's finishing step issues one [connect] call, on the
    handle's descriptor and the address of the first candidate, and leaves
    the handle as it is; it raises "Connection failed" with [errno] when the
    call returns a negative value and returns otherwise. A refused connection
    is not tried again, neither on the same candidate nor on the next. *)
Theorem client_do_connect_steps (w : W) (this : socket_impl)
    (res0 : addrinfo) (rest : list addrinfo) :
  res0_ this = res0 :: rest →
  let c := sys_connect (fd_ (base this)) (ai_addr res0) (ai_addrlen res0) in
  let r := (os c w).1 in
  let x := run os (client_.do_connect this) w in
  trace_of x = [c] ∧ memory_of x = this ∧ world_of x = (os c w).2 ∧
  (ret r < 0 →
     result_of x = Throw {| what := "Connection failed: " +:+ show_int (errno r) |}) ∧
  (0 ≤ ret r → result_of x = Return tt).
Proof.
  intros Hres c r x. subst x.
  rewrite (client_do_connect_run os w this res0 rest Hres). fold c r.
  cbn [trace_of memory_of world_of result_of fst snd].
  destruct (Z.ltb_spec (ret r) 0); repeat split; intros; (done || lia).
Qed.

(** X14. After a [connect] that returned, the handle holds the descriptor
    that [socket] returned and the list the resolver stored, and input and
    output go to that descriptor: with a positive descriptor [write] issues
    its [send] on it and [read_line] starts with a peek on it. *)
Theorem connected_handle_uses_descriptor (T : derived) (w : W)
    (this : socket_impl) (name : string) (port : Z)
    (res0 : addrinfo) (rest : list addrinfo) :
  client_or_server T → fd_ (base this) ≤ 0 →
  let c1 := resolve_call traits name port in
  let r1 := (os c1 w).1 in
  let w1 := (os c1 w).2 in
  let r2 := (os (create_call res0) w1).1 in
  let x := run os (socket_impl_.connect gai_strerror (T := T) name port this) w in
  let s := base (memory_of x) in
  ret r1 = 0 → r_addrs r1 = res0 :: rest → 0 < ret r2 →
  fd_ s = ret r2 ∧ res0_ (memory_of x) = res0 :: rest ∧
  (∀ (w' : W) buffer len,
     trace_of (run os (socket_.write s buffer len tt) w')
     = [sys_send (ret r2) buffer len 0]) ∧
  (∀ (w' : W) buffer, ∃ t,
     trace_of (run os (socket_.read_line s buffer) w')
     = sys_recv (ret r2) 4096 MSG_PEEK :: t).
Proof.
  intros HT Hfd c1 r1 w1 r2 x s Hr Hres H2.
  pose proof (connect_run gai_strerror os T w this name port Hfd) as Hrun.
  cbv zeta in Hrun. fold c1 r1 w1 x in Hrun.
  rewrite Hr, Hres in Hrun. cbn [negb Z.eqb] in Hrun. fold r2 in Hrun.
  set (this2 := set_fd (set_res0 this (res0 :: rest)) (ret r2)) in *.
  assert (E : (ret r2 <? 0) = false) by (apply Z.ltb_ge; lia).
  rewrite E in Hrun.
  destruct (do_connect_first_candidate os T (os (create_call res0) w1).2
              this2 res0 rest HT eq_refl) as (Hm & _).
  assert (Hx : memory_of x = this2) by (rewrite Hrun; exact Hm).
  subst s. rewrite Hx. change (fd_ (base this2)) with (ret r2).
  split; [done |]. split; [done |]. split.
  - intros w' buffer len. change (base this2) with {| fd_ := ret r2 |}.
    by rewrite write_run by (cbn; lia).
  - intros w' buffer. change (base this2) with {| fd_ := ret r2 |}.
    rewrite read_line_run. cbv zeta. cbn [fd_].
    change socket_.BUFFER_SIZE with 4096.
    repeat match goal with
           | |- context [if ?b then _ else _] => destruct b
           end; cbn [trace_of snd]; eauto.
Qed.

End connector_more.

Lemma connect_then_destroy_witness :
  let x := run scripted (socket_impl_.connect gai_strerror_gnu (T := tcp_server)
                           "localhost" 1234 socket_impl_.ctor)
               [resolved [candidate_a]; success 3; success 0; failure 98] in
  result_of x = Throw {| what := "Could not bind to socket: 98" |} ∧
  trace_of (run scripted (socket_.dtor (base (memory_of x)) tt) [success 0])
  = [sys_close 3].
Proof.
  intros x. split; [reflexivity |].
  destruct (connect_then_destroy gai_strerror_gnu scripted tcp_server
              [resolved [candidate_a]; success 3; success 0; failure 98]
              [success 0] socket_impl_.ctor "localhost" 1234) as (_ & H).
  - right. reflexivity.
  - simpl. lia.
  - destruct (H eq_refl candidate_a [] eq_refl) as (_ & H2).
    apply H2. simpl. lia.
Defined.

Lemma connect_with_descriptor_zero_witness :
  let x := run scripted (socket_impl_.connect gai_strerror_gnu (T := tcp_client)
                           "localhost" 1234 socket_impl_.ctor)
               [resolved [candidate_a]; success 0; success 0] in
  result_of x = Return tt ∧
  run scripted (socket_.write (base (memory_of x)) (bytes "GET /") 5 tt) [success 5]
  = (tt, Throw {| what := "Not connected" |}, [success 5], []).
Proof.
  intros x.
  destruct (connect_with_descriptor_zero gai_strerror_gnu scripted tcp_client
              [resolved [candidate_a]; success 0; success 0]
              socket_impl_.ctor "localhost" 1234 candidate_a [])
    as (H1 & _ & H2 & _).
  - left. reflexivity.
  - simpl. lia.
  - reflexivity.
  - reflexivity.
  - reflexivity.
  - reflexivity.
  - split; [exact H1 | apply H2].
Defined.

Lemma traits_only_in_hints_witness :
  let script := [resolved [candidate_a]; success 3; success 0] in
  let x1 := run scripted (socket_impl_.connect gai_strerror_gnu (T := client tcp_traits)
                            "localhost" 1234 socket_impl_.ctor) script in
  let x2 := run scripted (socket_impl_.connect gai_strerror_gnu (T := client udp_traits)
                            "localhost" 1234 socket_impl_.ctor) script in
  tail (trace_of x1) = tail (trace_of x2) ∧ result_of x1 = result_of x2 ∧
  tail (trace_of x2) = [sys_socket PF_INET SOCK_STREAM IPPROTO_TCP;
                        sys_connect 3 (ai_addr candidate_a) 16].
Proof.
  intros script x1 x2.
  destruct (traits_only_in_hints gai_strerror_gnu client tcp_traits udp_traits script
              socket_impl_.ctor "localhost" 1234) as (_ & _ & H1 & H2 & _).
  - left. reflexivity.
  - simpl. lia.
  - split; [exact H1 |]. split; [exact H2 | reflexivity].
Defined.

Lemma client_do_connect_steps_witness :
  let this := {| base := {| fd_ := 3 |}; res0_ := [candidate_a; candidate_b] |} in
  run scripted (client_.do_connect this) [failure 111; success 0]
  = (this, Throw {| what := "Connection failed: 111" |}, [success 0],
     [sys_connect 3 (ai_addr candidate_a) 16]).
Proof.
  intros this.
  destruct (client_do_connect_steps scripted [failure 111; success 0] this
              candidate_a [candidate_b] eq_refl) as (Ht & Hm & Hw & Hr & _).
  specialize (Hr ltac:(simpl; lia)).
  destruct (run scripted (client_.do_connect this) [failure 111; success 0])
    as [[[m o] w'] t].
  cbn in Ht, Hm, Hw, Hr. by subst.
Defined.

Lemma connected_handle_uses_descriptor_witness :
  let x := run scripted (socket_impl_.connect gai_strerror_gnu (T := tcp_client)
                           "localhost" 1234 socket_impl_.ctor)
               [resolved [candidate_a]; success 3; success 0] in
  fd_ (base (memory_of x)) = 3 ∧
  trace_of (run scripted (socket_.write (base (memory_of x)) (bytes "GET /") 5 tt)
              [success 5])
  = [sys_send 3 (bytes "GET /") 5 0].
Proof.
  intros x.
  destruct (connected_handle_uses_descriptor gai_strerror_gnu scripted tcp_client
              [resolved [candidate_a]; success 3; success 0]
              socket_impl_.ctor "localhost" 1234 candidate_a [])
    as (H1 & _ & H2 & _).
  - left. reflexivity.
  - simpl. lia.
  - reflexivity.
  - reflexivity.
  - simpl. lia.
  - split; [exact H1 | apply H2].
Defined.
